(** * generate_qr.py: a QR code for a pre-filled e-mail, with a logo in its centre

    The script has one function, [generate_qr_code], which formats a mailto
    link, hands it to the python-qrcode encoder, pastes a logo with Pillow and
    saves, shows and announces the picture.  This development embeds that
    function in a state-and-exception monad over a small model of the world it
    acts on (the file system and the chronological trace of what was printed,
    saved and displayed) and proves the properties stated about it.

    The two third-party libraries are not part of the script.  Their objects
    are represented symbolically: an image is the tree of library calls that
    built it, with the attributes the script reads ([size], [mode]) computed
    from the tree.  What the libraries and the platform decide on their own
    (capacity tables, which calls fail and how) is a parameter of the
    development, see [QRTables] and [Platform]. *)

From Stdlib Require Import ZArith List Ascii String Lia Bool.
From stdpp Require Import base gmap strings list.

Open Scope Z_scope.

(** ** Python values shared by the whole development *)

(** The exception classes that can reach [generate_qr_code].  None of them is
    a subclass of [FileNotFoundError]. *)
Inductive exn :=
| FileNotFoundError
| PermissionError
| IsADirectoryError
| NotADirectoryError
| UnidentifiedImageError
| OSError
| ValueError
| DataOverflowError.

(** [isinstance(e, FileNotFoundError)], the test of [except FileNotFoundError]. *)
Definition isinstance_FileNotFoundError (e : exn) : bool :=
  match e with
  | FileNotFoundError => true
  | _ => false
  end.

(** The outcome of a Python call: a value, or a raised exception. *)
Inductive Result (A : Type) :=
| Return (a : A)
| Raise (e : exn).
Arguments Return {A} a.
Arguments Raise {A} e.

(** An f-string is a sequence of literal pieces and of interpolated values;
    every value the script interpolates is a [str], whose formatting is the
    string itself.  Strings are held as their UTF-8 bytes. *)
Inductive fpart :=
| Lit (text : string)
| Interp (value : string).

Definition render (p : fpart) : string :=
  match p with
  | Lit text => text
  | Interp value => value
  end.

Fixpoint fstring (parts : list fpart) : string :=
  match parts with
  | [] => ""
  | p :: rest => render p +:+ fstring rest
  end.

(** ** python-qrcode: the QRCode object *)

Module qrcode.

(** [qrcode.constants.ERROR_CORRECT_*]. *)
Inductive ErrorCorrection :=
| ERROR_CORRECT_L
| ERROR_CORRECT_M
| ERROR_CORRECT_Q
| ERROR_CORRECT_H.

(** The attributes of a [qrcode.QRCode] object that the script sets or that
    decide the picture. *)
Record QRCode := {
  version : Z;
  error_correction : ErrorCorrection;
  box_size : Z;
  border : Z;
  data_list : list string
}.

(** The three classes of versions that share the widths of the length
    fields ([util.mode_sizes_for_version]). *)
Inductive ModeSizes :=
| MODE_SIZE_SMALL
| MODE_SIZE_MEDIUM
| MODE_SIZE_LARGE.

Definition mode_sizes_for_version (v : Z) : ModeSizes :=
  if v <? 10 then MODE_SIZE_SMALL
  else if v <? 27 then MODE_SIZE_MEDIUM
  else MODE_SIZE_LARGE.

Definition ModeSizes_eqb (a b : ModeSizes) : bool :=
  match a, b with
  | MODE_SIZE_SMALL, MODE_SIZE_SMALL => true
  | MODE_SIZE_MEDIUM, MODE_SIZE_MEDIUM => true
  | MODE_SIZE_LARGE, MODE_SIZE_LARGE => true
  | _, _ => false
  end.

(** The classes in the order of the versions they cover. *)
Definition rank (ms : ModeSizes) : nat :=
  match ms with
  | MODE_SIZE_SMALL => 0
  | MODE_SIZE_MEDIUM => 1
  | MODE_SIZE_LARGE => 2
  end.

(** The data of the encoder that the development leaves open:
    [bit_limit ec v] is [util.BIT_LIMIT_TABLE[ec][v]], the number of data bits
    of a version-[v] symbol at level [ec]; [needed_bits ms data] is the length
    of the bit stream of [data] when the length fields have the widths of the
    class [ms]. *)
Record QRTables := {
  bit_limit : ErrorCorrection -> Z -> Z;
  needed_bits : ModeSizes -> list string -> Z
}.

(** Side of the symbol in modules, and of its picture in pixels. *)
Definition modules_count (qr : QRCode) : Z := version qr * 4 + 17.

Definition pixel_size (qr : QRCode) : Z :=
  (modules_count qr + border qr * 2) * box_size qr.

Definition with_version (qr : QRCode) (v : Z) : QRCode :=
  {| version := v;
     error_correction := error_correction qr;
     box_size := box_size qr;
     border := border qr;
     data_list := data_list qr |}.

Definition with_data (qr : QRCode) (data : string) : QRCode :=
  {| version := version qr;
     error_correction := error_correction qr;
     box_size := box_size qr;
     border := border qr;
     data_list := data_list qr ++ [data] |}.

(** [QRCode(version=, error_correction=, box_size=, border=)]: the
    constructor checks its numbers and stores them. *)
Definition new (version : Z) (error_correction : ErrorCorrection)
    (box_size border : Z) : Result QRCode :=
  if box_size <=? 0 then Raise ValueError
  else if border <? 0 then Raise ValueError
  else if (version <? 1) || (40 <? version) then Raise ValueError
  else Return {| version := version;
                 error_correction := error_correction;
                 box_size := box_size;
                 border := border;
                 data_list := [] |}.

Section Encoder.

Variable T : QRTables.

(** [bisect_left(table, need, start)] on the 41-entry capacity row: the first
    index from [start] whose capacity reaches [need], 41 when there is none.
    The row is sorted, so the scan and the bisection agree. *)
Fixpoint first_fit (limit : Z -> Z) (need : Z) (steps : nat) (v : Z) : Z :=
  match steps with
  | O => v
  | S steps' =>
      if need <=? limit v then v else first_fit limit need steps' (v + 1)
  end.

Definition bisect_left (ec : ErrorCorrection) (need start : Z) : Z :=
  first_fit (bit_limit T ec) need (Z.to_nat (41 - start)) start.

(** [util.check_version(version)]. *)
Definition check_version (v : Z) : Result unit :=
  if (v <? 1) || (40 <? v) then Raise ValueError else Return tt.

(** [QRCode.best_fit(start)]: size the data with the length fields of
    [start], take the first version that holds it, and start again from that
    version when it belongs to another class of length fields.  A class can
    change at most twice, which bounds [again].

    The version found is stored with [self.version = ...], and [version] is
    a property whose setter calls [check_version]: when no version holds the
    data the 41 of the bisection is refused there, with a [ValueError], and
    the test [self.version == 41] that raises [DataOverflowError] is never
    reached. *)
Fixpoint best_fit (again : nat) (qr : QRCode) (start : Z) : Result Z :=
  match check_version start with
  | Raise e => Raise e
  | Return _ =>
      let mode_sizes := mode_sizes_for_version start in
      let needed := needed_bits T mode_sizes (data_list qr) in
      let v := bisect_left (error_correction qr) needed start in
      match check_version v with
      | Raise e => Raise e
      | Return _ =>
          if v =? 41 then Raise DataOverflowError
          else if ModeSizes_eqb mode_sizes (mode_sizes_for_version v)
          then Return v
          else match again with
               | O => Return v
               | S again' => best_fit again' qr v
               end
      end
  end.

(** [QRCode.make(fit)]: with [fit] the version is the one [best_fit] finds
    from the version of the object; without it the version stays and data
    that does not fit is a [DataOverflowError]. *)
Definition make (qr : QRCode) (fit : bool) : Result QRCode :=
  if fit then
    match best_fit 2 qr (version qr) with
    | Return v => Return (with_version qr v)
    | Raise e => Raise e
    end
  else if needed_bits T (mode_sizes_for_version (version qr)) (data_list qr)
          <=? bit_limit T (error_correction qr) (version qr)
  then Return qr
  else Raise DataOverflowError.

End Encoder.

End qrcode.

Import qrcode.

(** ** Pillow: images *)

(** An image, as the calls that produced it. *)
Inductive Image :=
| QRImage (qr : QRCode) (fill_color back_color : string)
| Picture (mode : string) (width height : Z)
| Convert (im : Image) (mode : string)
| Resize (im : Image) (size : Z * Z)
| Paste (dst src : Image) (box : Z * Z).

(** [im.size]. *)
Fixpoint Image_size (im : Image) : Z * Z :=
  match im with
  | QRImage qr _ _ => (pixel_size qr, pixel_size qr)
  | Picture _ width height => (width, height)
  | Convert im' _ => Image_size im'
  | Resize _ size => size
  | Paste dst _ _ => Image_size dst
  end.

(** [im.mode]; the picture of a symbol is bilevel only in black on white. *)
Fixpoint Image_mode (im : Image) : string :=
  match im with
  | QRImage _ fill_color back_color =>
      if String.eqb fill_color "black" && String.eqb back_color "white" then "1"
      else if String.eqb back_color "transparent" then "RGBA"
      else "RGB"
  | Picture mode _ _ => mode
  | Convert _ mode => mode
  | Resize im' _ => Image_mode im'
  | Paste dst _ _ => Image_mode dst
  end.

(** The symbol an image shows, whatever was converted or pasted over it. *)
Fixpoint Image_symbol (im : Image) : option (QRCode * string * string) :=
  match im with
  | QRImage qr fill_color back_color => Some (qr, fill_color, back_color)
  | Picture _ _ _ => None
  | Convert im' _ => Image_symbol im'
  | Resize im' _ => Image_symbol im'
  | Paste dst _ _ => Image_symbol dst
  end.

(** The pictures pasted onto an image, oldest first, each with its box. *)
Fixpoint Image_overlays (im : Image) : list (Image * (Z * Z)) :=
  match im with
  | QRImage _ _ _ => []
  | Picture _ _ _ => []
  | Convert im' _ => Image_overlays im'
  | Resize im' _ => Image_overlays im'
  | Paste dst src box => Image_overlays dst ++ [(src, box)]
  end.

(** ** The world: files and what the run made observable *)

(** What a path leads to.  The last two are not files one finds on a disk
    beside the others: [EmptyFile] is a file of no bytes, as a failed write
    leaves it, and [Unopenable e] stands for a path that names no file and
    cannot name one (a component of it is a plain file, a name is too long,
    it holds a NUL), which [open] refuses with [e]. *)
Inductive File :=
| ImageFile (im : Image)
| CorruptFile
| UnsupportedFile
| UnreadableFile
| DirectoryEntry
| EmptyFile
| Unopenable (e : exn).

(** The file system.  Several paths can name one file ([logo.png] and
    [./logo.png], a link and its target): [canonical] gives the one name
    under which the file is kept in [entries].  [unopenable] is the verdict
    of the operating system on the paths that cannot name a file. *)
Record FileSystem := {
  entries : gmap string File;
  canonical : string -> string;
  unopenable : string -> option exn
}.

(** [fs !! path]: the file the path names, else why it can name none, else
    nothing: no such file. *)
#[global] Instance FileSystem_lookup : Lookup string File FileSystem :=
  fun path fs =>
    match entries fs !! canonical fs path with
    | Some f => Some f
    | None =>
        match unopenable fs path with
        | Some e => Some (Unopenable e)
        | None => None
        end
    end.

(** [<[path := f]> fs]: the file the path names is now [f]. *)
#[global] Instance FileSystem_insert : Insert string File FileSystem :=
  fun path f fs =>
    {| entries := <[canonical fs path := f]> (entries fs);
       canonical := canonical fs;
       unopenable := unopenable fs |}.

(** No file, every path its own name. *)
#[global] Instance FileSystem_empty : Empty FileSystem :=
  {| entries := ∅; canonical := fun path => path; unopenable := fun _ => None |}.

(** What a run makes observable.  [Shown im] records that [show()] was
    called on [im] and returned; on a machine without a viewer it returns
    without displaying anything. *)
Inductive Event :=
| Printed (line : string)
| Saved (path : string) (im : Image)
| Shown (im : Image).

Record World := {
  files : FileSystem;
  trace : list Event
}.

(** The world after a line was printed, an image saved, an image shown.
    [show] hands the viewer a temporary file with the image when there is a
    viewer. *)
Definition printed (line : string) (w : World) : World :=
  {| files := files w; trace := trace w ++ [Printed line] |}.

Definition saved (path : string) (im : Image) (w : World) : World :=
  {| files := <[path := ImageFile im]> (files w);
     trace := trace w ++ [Saved path im] |}.

Definition with_tempfile (tempfile : option string) (im : Image)
    (fs : FileSystem) : FileSystem :=
  match tempfile with
  | Some path => <[path := ImageFile im]> fs
  | None => fs
  end.

Definition shown (tempfile : option string) (im : Image) (w : World) : World :=
  {| files := with_tempfile tempfile im (files w);
     trace := trace w ++ [Shown im] |}.

(** The world after a save that failed once the file was open: a file that
    was there is left empty; one that was not is removed again. *)
Definition truncated (path : string) (w : World) : World :=
  match files w !! path with
  | None => w
  | Some (Unopenable _) => w
  | Some _ => {| files := <[path := EmptyFile]> (files w); trace := trace w |}
  end.

(** The image a world holds at a path, when the entry is an image file. *)
Definition saved_image (w : World) (path : string) : option Image :=
  match files w !! path with
  | Some (ImageFile im) => Some im
  | _ => None
  end.

(** The errors with which the encoder of a format refuses an image. *)
Inductive EncoderError :=
| cannot_write_mode
| bad_encoder_option.

Definition EncoderError_exn (f : EncoderError) : exn :=
  match f with
  | cannot_write_mode => OSError
  | bad_encoder_option => ValueError
  end.

(** What the platform decides: whether a resize, a paste, a save or a
    display fails, and with which exception.  A save fails in one of two
    places: [save_error] is raised before anything is written (the extension
    names no format, the path cannot be opened for writing), [encode_error]
    is raised by the encoder of the format once the file is open.  A display
    that fails has written nothing; one that succeeds has written the
    temporary file [show_tempfile], if the platform has a viewer. *)
Record Platform := {
  resize_error : Image -> Z * Z -> option exn;
  paste_error : Image -> Image -> Z * Z -> option exn;
  save_error : World -> Image -> string -> option exn;
  encode_error : World -> Image -> string -> option EncoderError;
  show_error : World -> Image -> option exn;
  show_tempfile : World -> Image -> option string
}.

(** ** The monad of the script: state and exceptions *)

Definition Py (A : Type) : Type := World -> Result A * World.

Definition ret {A} (a : A) : Py A := fun w => (Return a, w).

Definition raise {A} (e : exn) : Py A := fun w => (Raise e, w).

Definition bind {A B} (m : Py A) (k : A -> Py B) : Py B :=
  fun w =>
    match m w with
    | (Return a, w') => k a w'
    | (Raise e, w') => (Raise e, w')
    end.

Definition lift {A} (r : Result A) : Py A := fun w => (r, w).

(** [try: body  except <class>: handler] *)
Definition try_except {A} (body : Py A) (catches : exn -> bool)
    (handler : Py A) : Py A :=
  fun w =>
    match body w with
    | (Return a, w') => (Return a, w')
    | (Raise e, w') => if catches e then handler w' else (Raise e, w')
    end.

Declare Scope py_scope.
Delimit Scope py_scope with py.
Notation "'let*' x := m 'in' k" := (bind m (fun x => k))
  (at level 10, x name, m at level 100, k at level 200) : py_scope.
Open Scope py_scope.

(** ** The library calls of the script *)

Section Script.

Variable T : QRTables.
Variable P : Platform.

(** [qr.add_data(data)] and [qr.make(fit=...)] change the object in place;
    here they return the object as it is after the call. *)
Definition QRCode_add_data (qr : QRCode) (data : string) : Py QRCode :=
  ret (with_data qr data).

Definition QRCode_make (qr : QRCode) (fit : bool) : Py QRCode :=
  lift (qrcode.make T qr fit).

Definition QRCode_make_image (qr : QRCode) (fill_color back_color : string)
    : Py Image :=
  ret (QRImage qr fill_color back_color).

Definition Image_convert (im : Image) (mode : string) : Py Image :=
  ret (Convert im mode).

(** What [Image.open] makes of the entry found at a path. *)
Definition read_image (entry : option File) : Result Image :=
  match entry with
  | None => Raise FileNotFoundError
  | Some (ImageFile im) => Return im
  | Some CorruptFile => Raise UnidentifiedImageError
  | Some UnsupportedFile => Raise UnidentifiedImageError
  | Some UnreadableFile => Raise PermissionError
  | Some DirectoryEntry => Raise IsADirectoryError
  | Some EmptyFile => Raise UnidentifiedImageError
  | Some (Unopenable e) => Raise e
  end.

Definition Image_open (path : string) : Py Image :=
  fun w => (read_image (files w !! path), w).

Definition Image_resize (im : Image) (size : Z * Z) : Py Image :=
  match resize_error P im size with
  | Some e => raise e
  | None => ret (Resize im size)
  end.

(** [dst.paste(src, box)] changes [dst] in place; the call returns [dst] as
    it is afterwards.  A paste that raises has not touched [dst]. *)
Definition Image_paste (dst src : Image) (box : Z * Z) : Py Image :=
  match paste_error P dst src box with
  | Some e => raise e
  | None => ret (Paste dst src box)
  end.

(** [im.save(path)]: the format is looked up and the file opened, then the
    encoder writes. *)
Definition Image_save (im : Image) (path : string) : Py unit :=
  fun w =>
    match save_error P w im path with
    | Some e => (Raise e, w)
    | None =>
        match encode_error P w im path with
        | Some f => (Raise (EncoderError_exn f), truncated path w)
        | None => (Return tt, saved path im w)
        end
    end.

Definition Image_show (im : Image) : Py unit :=
  fun w =>
    match show_error P w im with
    | Some e => (Raise e, w)
    | None => (Return tt, shown (show_tempfile P w im) im w)
    end.

Definition print (line : string) : Py unit :=
  fun w => (Return tt, printed line w).

(** ** generate_qr.py *)

(** The default body, three adjacent literals in the source. *)
Definition default_body : string :=
  "Je suis intéressé(e) à participer à votre étude. "
  +:+ "Vous pouvez me contacter à cette adresse e-mail ou "
  +:+ "m'appeler au [votre numéro].".

Definition default_output_file : string := "email_qr.png".

Definition logo_not_found_message : string :=
  "Logo file not found. Proceeding without a logo.".

(** The two quantities the script computes for the overlay: the side of the
    resized logo, and the corner where it is pasted ([//] is [Z.div]). *)
Definition max_logo_size (qr_img : Image) : Z := fst (Image_size qr_img) / 3.

Definition pos (qr_img logo : Image) : Z * Z :=
  ((fst (Image_size qr_img) - fst (Image_size logo)) / 2,
   (snd (Image_size qr_img) - snd (Image_size logo)) / 2).

(** [generate_qr_code(email, subject, logo_path, body=None,
    output_file="email_qr.png")].  An [output_file] left out of the call is
    [None] here. *)
Definition generate_qr_code (email subject logo_path : string)
    (body : option string) (output_file : option string) : Py unit :=
  let output_file := default default_output_file output_file in
  let body :=
    match body with
    | None => default_body
    | Some body => body
    end in
  let email_link :=
    fstring [Lit "mailto:"; Interp email; Lit "?subject="; Interp subject;
             Lit "&body="; Interp body] in
  let* qr := lift (qrcode.new 6 ERROR_CORRECT_H 10 4) in
  let* qr := QRCode_add_data qr email_link in
  let* qr := QRCode_make qr true in
  let* img := QRCode_make_image qr "blue" "white" in
  let* qr_img := Image_convert img "RGB" in
  let* qr_img :=
    try_except
      (let* logo := Image_open logo_path in
       let max_logo_size := max_logo_size qr_img in
       let* logo := Image_resize logo (max_logo_size, max_logo_size) in
       let pos := pos qr_img logo in
       Image_paste qr_img logo pos)
      isinstance_FileNotFoundError
      (let* _ := print logo_not_found_message in ret qr_img) in
  let* _ := Image_save qr_img output_file in
  let* _ := Image_show qr_img in
  print (fstring [Lit "QR code saved as "; Interp output_file]).

(** ** The four stages of [generate_qr_code], named *)

(** Lines 56-62: the link. *)
Definition email_link (email subject : string) (body : option string) : string :=
  fstring [Lit "mailto:"; Interp email; Lit "?subject="; Interp subject;
           Lit "&body=";
           Interp (match body with None => default_body | Some body => body end)].

(** The object on which line 74 calls [make]. *)
Definition qr_request (link : string) : QRCode :=
  {| version := 6;
     error_correction := ERROR_CORRECT_H;
     box_size := 10;
     border := 4;
     data_list := [link] |}.

(** The value of [qr_img] on line 77, for the symbol [make] produced. *)
Definition rendered (qr : QRCode) : Image :=
  Convert (QRImage qr "blue" "white") "RGB".

(** The path the image is saved to. *)
Definition output_path (output_file : option string) : string :=
  default default_output_file output_file.

(** Lines 65-77: the picture of the symbol. *)
Definition qr_image (link : string) : Py Image :=
  let* qr := lift (qrcode.new 6 ERROR_CORRECT_H 10 4) in
  let* qr := QRCode_add_data qr link in
  let* qr := QRCode_make qr true in
  let* img := QRCode_make_image qr "blue" "white" in
  Image_convert img "RGB".

(** Lines 81-91: the body of the [try]. *)
Definition overlay_logo (qr_img : Image) (logo_path : string) : Py Image :=
  let* logo := Image_open logo_path in
  let max_logo_size := max_logo_size qr_img in
  let* logo := Image_resize logo (max_logo_size, max_logo_size) in
  let pos := pos qr_img logo in
  Image_paste qr_img logo pos.

(** Lines 80-94: the [try] with its handler. *)
Definition add_logo (qr_img : Image) (logo_path : string) : Py Image :=
  try_except (overlay_logo qr_img logo_path)
    isinstance_FileNotFoundError
    (let* _ := print logo_not_found_message in ret qr_img).

(** Lines 97-99: save, show, confirm. *)
Definition output (qr_img : Image) (output_file : string) : Py unit :=
  let* _ := Image_save qr_img output_file in
  let* _ := Image_show qr_img in
  print (fstring [Lit "QR code saved as "; Interp output_file]).

(** Lines 56-94: everything before the output stage. *)
Definition composed_image (email subject logo_path : string)
    (body : option string) : Py Image :=
  let* qr_img := qr_image (email_link email subject body) in
  add_logo qr_img logo_path.

(** The ways in which the body of the [try] raises: at [Image.open], at
    [resize], at [paste].  The arithmetic between them raises nothing. *)
Inductive overlay_raises (qr_img : Image) (logo_path : string) (w : World)
    : exn -> Prop :=
| raises_at_open e :
    read_image (files w !! logo_path) = Raise e ->
    overlay_raises qr_img logo_path w e
| raises_at_resize logo e :
    read_image (files w !! logo_path) = Return logo ->
    resize_error P logo (max_logo_size qr_img, max_logo_size qr_img) = Some e ->
    overlay_raises qr_img logo_path w e
| raises_at_paste logo e :
    read_image (files w !! logo_path) = Return logo ->
    resize_error P logo (max_logo_size qr_img, max_logo_size qr_img) = None ->
    paste_error P qr_img
      (Resize logo (max_logo_size qr_img, max_logo_size qr_img))
      (pos qr_img (Resize logo (max_logo_size qr_img, max_logo_size qr_img)))
      = Some e ->
    overlay_raises qr_img logo_path w e.

End Script.

(** ** main: the command line *)

(** A flag declared with [add_argument]: it stores one string under its
    name. *)
Record Argument := {
  flag : string;
  required : bool;
  default_value : option string
}.

(** The five declarations of [main], lines 119-125. *)
Definition email_argument : Argument :=
  {| flag := "--email"; required := true; default_value := None |}.

Definition subject_argument : Argument :=
  {| flag := "--subject"; required := true; default_value := None |}.

Definition logo_argument : Argument :=
  {| flag := "--logo"; required := true; default_value := None |}.

Definition body_argument : Argument :=
  {| flag := "--body"; required := false; default_value := None |}.

Definition output_argument : Argument :=
  {| flag := "--output"; required := false; default_value := Some "email_qr.png" |}.

(** A command line made of these flags, spelled in full: for each, the value
    it gives, if it gives one.  Other command lines (unknown flags, [--help],
    a flag without its value, a value that starts with a dash and is taken
    for a flag) are not represented. *)
Record CommandLine := {
  given_email : option string;
  given_subject : option string;
  given_logo : option string;
  given_body : option string;
  given_output : option string
}.

(** What [parse_args] stores for a flag: the value given, else the default,
    which may be Python's [None]; nothing when a required flag is missing. *)
Definition stored (a : Argument) (given : option string) : option (option string) :=
  match given with
  | Some value => Some (Some value)
  | None => if required a then None else Some (default_value a)
  end.

(** The namespace [parse_args] returns. *)
Record Namespace := {
  args_email : string;
  args_subject : string;
  args_logo : string;
  args_body : option string;
  args_output : string
}.

(** [parser.parse_args()]: the namespace, or nothing when the parser ends the
    process with its usage message ([SystemExit(2)]). *)
Definition parse_args (cl : CommandLine) : option Namespace :=
  match stored email_argument (given_email cl),
        stored subject_argument (given_subject cl),
        stored logo_argument (given_logo cl),
        stored body_argument (given_body cl),
        stored output_argument (given_output cl) with
  | Some (Some email), Some (Some subject), Some (Some logo),
    Some body, Some (Some output) =>
      Some {| args_email := email;
              args_subject := subject;
              args_logo := logo;
              args_body := body;
              args_output := output |}
  | _, _, _, _, _ => None
  end.

(** How a call of [main] ends: [generate_qr_code] ran, and returned or
    raised, or the parser left with a status. *)
Inductive Process :=
| Ran (r : Result unit)
| SystemExit (status : Z).

Section Main.

Variable T : QRTables.
Variable P : Platform.

(** [main()], lines 116-130.  The usage message goes to the error stream,
    which the trace does not record. *)
Definition main (cl : CommandLine) : World -> Process * World :=
  fun w =>
    match parse_args cl with
    | None => (SystemExit 2, w)
    | Some args =>
        let (r, w') :=
          generate_qr_code T P (args_email args) (args_subject args)
            (args_logo args) (args_body args) (Some (args_output args)) w in
        (Ran r, w')
    end.

End Main.

(** The status of the process that ran the script: 0 when [main] returned,
    1 when an exception left it, the status of [SystemExit] otherwise. *)
Definition exit_status (p : Process) : Z :=
  match p with
  | Ran (Return _) => 0
  | Ran (Raise _) => 1
  | SystemExit status => status
  end.

(** The events a run added to the trace. *)
Definition new_events (w w' : World) : list Event :=
  drop (length (trace w)) (trace w').

(** ** A reference encoder and platform

    The capacities of ISO/IEC 18004 (data codewords per version and level,
    eight bits each) and the bit stream python-qrcode writes for the strings
    given to [add_data], which cuts each string into segments
    ([util.optimal_data_chunks] with the default [optimize=20]): a run of
    twenty digits or more is a numeric segment, a run of twenty or more of
    the 45 alphanumeric characters in what is left is an alphanumeric
    segment, the rest are 8-bit-byte segments.  Each segment costs a 4-bit
    mode, a length field whose width depends on the class of the version,
    and its characters. *)

Module Reference.

Definition data_codewords (ec : ErrorCorrection) : list Z :=
  match ec with
  | ERROR_CORRECT_L =>
      [19; 34; 55; 80; 108; 136; 156; 194; 232; 274;
       324; 370; 428; 461; 523; 589; 647; 721; 795; 861;
       932; 1006; 1094; 1174; 1276; 1370; 1468; 1531; 1631; 1735;
       1843; 1955; 2071; 2191; 2306; 2434; 2566; 2702; 2812; 2956]
  | ERROR_CORRECT_M =>
      [16; 28; 44; 64; 86; 108; 124; 154; 182; 216;
       254; 290; 334; 365; 415; 453; 507; 563; 627; 669;
       714; 782; 860; 914; 1000; 1062; 1128; 1193; 1267; 1373;
       1455; 1541; 1631; 1725; 1812; 1914; 1992; 2102; 2216; 2334]
  | ERROR_CORRECT_Q =>
      [13; 22; 34; 48; 62; 76; 88; 110; 132; 154;
       180; 206; 244; 261; 295; 325; 367; 397; 445; 485;
       512; 568; 614; 664; 718; 754; 808; 871; 911; 985;
       1033; 1115; 1171; 1231; 1286; 1354; 1426; 1502; 1582; 1666]
  | ERROR_CORRECT_H =>
      [9; 16; 26; 36; 46; 60; 66; 86; 100; 122;
       140; 158; 180; 197; 223; 253; 283; 313; 341; 385;
       406; 442; 464; 514; 538; 596; 628; 661; 701; 745;
       793; 845; 901; 961; 986; 1054; 1096; 1142; 1222; 1276]
  end.

Definition iso_bit_limit (ec : ErrorCorrection) (v : Z) : Z :=
  8 * nth (Z.to_nat v) (0 :: data_codewords ec) 0.

(** The modes of a segment. *)
Inductive Mode :=
| MODE_NUMBER
| MODE_ALPHA_NUM
| MODE_8BIT_BYTE.

(** [\d] on bytes, and the class of [util.ALPHA_NUM]. *)
Definition is_digit (c : ascii) : bool :=
  Nat.leb 48 (nat_of_ascii c) && Nat.leb (nat_of_ascii c) 57.

Definition is_upper (c : ascii) : bool :=
  Nat.leb 65 (nat_of_ascii c) && Nat.leb (nat_of_ascii c) 90.

Definition is_alpha_num (c : ascii) : bool :=
  is_digit c || is_upper c
  || existsb (Ascii.eqb c) (list_ascii_of_string " $%*+-./:").

(** A piece of a split, when it is not empty. *)
Definition chunk (is_match : bool) (text : string) : list (bool * string) :=
  if String.eqb text "" then [] else [(is_match, text)].

(** The end of a run of matching characters: a run of [minimum] or more is a
    match of its own, after the text before it; a shorter one joins that
    text. *)
Definition close_run (minimum : nat) (text run : string)
    : list (bool * string) * string :=
  if Nat.leb minimum (String.length run)
  then (chunk false text ++ [(true, run)], "")
  else ([], text +:+ run).

(** [util._optimal_split] for the pattern of [minimum] or more characters of
    a class: the leftmost longest matches are the runs of the class that are
    long enough. *)
Fixpoint split_runs (inset : ascii -> bool) (minimum : nat)
    (data text run : string) : list (bool * string) :=
  match data with
  | EmptyString =>
      let (out, text') := close_run minimum text run in
      out ++ chunk false text'
  | String c rest =>
      if inset c
      then split_runs inset minimum rest text (run +:+ String c "")
      else
        let (out, text') := close_run minimum text run in
        out ++ split_runs inset minimum rest (text' +:+ String c "") ""
  end.

(** The string without its final newline, if it ends in one. *)
Fixpoint strip_newline (data : string) : option string :=
  match data with
  | EmptyString => None
  | String c rest =>
      match rest with
      | EmptyString => if Ascii.eqb c (ascii_of_nat 10) then Some "" else None
      | _ =>
          match strip_newline rest with
          | Some body => Some (String c body)
          | None => None
          end
      end
  end.

Definition all_of (inset : ascii -> bool) (data : string) : bool :=
  negb (String.eqb data "") && forallb inset (list_ascii_of_string data).

(** [util._optimal_split] for the pattern anchored at both ends, used for
    data of at most twenty bytes: the whole string matches, or all of it but
    a final newline. *)
Definition split_whole (inset : ascii -> bool) (data : string)
    : list (bool * string) :=
  if all_of inset data then [(true, data)]
  else
    match strip_newline data with
    | Some body =>
        if all_of inset body
        then [(true, body); (false, String (ascii_of_nat 10) "")]
        else chunk false data
    | None => chunk false data
    end.

Definition optimal_split (inset : ascii -> bool) (short : bool) (data : string)
    : list (bool * string) :=
  if short then split_whole inset data else split_runs inset 20 data "" "".

(** [util.optimal_data_chunks(data, minimum=20)]. *)
Definition optimal_data_chunks (data : string) : list (Mode * string) :=
  let short := Nat.leb (String.length data) 20 in
  flat_map
    (fun part : bool * string =>
       if fst part then [(MODE_NUMBER, snd part)]
       else
         map (fun sub : bool * string =>
                (if fst sub then MODE_ALPHA_NUM else MODE_8BIT_BYTE, snd sub))
           (optimal_split is_alpha_num short (snd part)))
    (optimal_split is_digit short data).

(** The bytes of the pieces of a split, in order. *)
Fixpoint joined {A : Type} (pieces : list (A * string)) : string :=
  match pieces with
  | [] => ""
  | piece :: rest => snd piece +:+ joined rest
  end.

(** The number of bytes of a string that are outside a class. *)
Fixpoint count_outside (inset : ascii -> bool) (s : string) : nat :=
  match s with
  | EmptyString => 0
  | String c rest => (if inset c then 0 else 1) + count_outside inset rest
  end.

(** What a split gives: the pieces are the data, in order, and a piece that
    matched is made of the class. *)
Definition split_of (inset : ascii -> bool) (data : string)
    (pieces : list (bool * string)) : Prop :=
  joined pieces = data /\
  Forall (fun piece => fst piece = true -> count_outside inset (snd piece) = 0%nat)
    pieces.

(** The width of the length field ([util.MODE_SIZE_SMALL] and the like). *)
Definition length_bits (mode : Mode) (ms : ModeSizes) : Z :=
  match mode, ms with
  | MODE_NUMBER, MODE_SIZE_SMALL => 10
  | MODE_NUMBER, MODE_SIZE_MEDIUM => 12
  | MODE_NUMBER, MODE_SIZE_LARGE => 14
  | MODE_ALPHA_NUM, MODE_SIZE_SMALL => 9
  | MODE_ALPHA_NUM, MODE_SIZE_MEDIUM => 11
  | MODE_ALPHA_NUM, MODE_SIZE_LARGE => 13
  | MODE_8BIT_BYTE, MODE_SIZE_SMALL => 8
  | MODE_8BIT_BYTE, MODE_SIZE_MEDIUM => 16
  | MODE_8BIT_BYTE, MODE_SIZE_LARGE => 16
  end.

(** The bits [QRData.write] takes for [n] characters: digits by three in 10
    bits (7 for two, 4 for one), alphanumerics by two in 11 (6 for one),
    bytes in 8. *)
Definition data_bits (mode : Mode) (n : Z) : Z :=
  match mode with
  | MODE_NUMBER =>
      10 * (n / 3) + (if n mod 3 =? 1 then 4 else if n mod 3 =? 2 then 7 else 0)
  | MODE_ALPHA_NUM => 11 * (n / 2) + 6 * (n mod 2)
  | MODE_8BIT_BYTE => 8 * n
  end.

Definition segment_bits (ms : ModeSizes) (segment : Mode * string) : Z :=
  4 + length_bits (fst segment) ms
  + data_bits (fst segment) (Z.of_nat (String.length (snd segment))).

Fixpoint segments_bits (ms : ModeSizes) (segments : list (Mode * string)) : Z :=
  match segments with
  | [] => 0
  | segment :: rest => segment_bits ms segment + segments_bits ms rest
  end.

(** The length of the buffer [best_fit] fills. *)
Fixpoint stream_bits (ms : ModeSizes) (data : list string) : Z :=
  match data with
  | [] => 0
  | d :: rest => segments_bits ms (optimal_data_chunks d) + stream_bits ms rest
  end.

Definition tables : QRTables :=
  {| bit_limit := iso_bit_limit; needed_bits := stream_bits |}.

(** A platform on which nothing fails, with a viewer. *)
Definition sound : Platform :=
  {| resize_error := fun _ _ => None;
     paste_error := fun _ _ _ => None;
     save_error := fun _ _ _ => None;
     encode_error := fun _ _ _ => None;
     show_error := fun _ _ => None;
     show_tempfile := fun _ _ => Some "/tmp/tmpqr.PNG" |}.

(** A machine without a viewer: [show] finds none to call and returns,
    nothing written and nothing displayed. *)
Definition headless : Platform :=
  {| resize_error := fun _ _ => None;
     paste_error := fun _ _ _ => None;
     save_error := fun _ _ _ => None;
     encode_error := fun _ _ _ => None;
     show_error := fun _ _ => None;
     show_tempfile := fun _ _ => None |}.

(** A platform with a viewer and no directory for temporary files that can
    be written: [tempfile.mkstemp], with which [show] starts, finds no usable
    directory and raises [FileNotFoundError] before anything is written. *)
Definition no_tempdir : Platform :=
  {| resize_error := fun _ _ => None;
     paste_error := fun _ _ _ => None;
     save_error := fun _ _ _ => None;
     encode_error := fun _ _ _ => None;
     show_error := fun _ _ => Some FileNotFoundError;
     show_tempfile := fun _ _ => None |}.

(** A platform on which the directory of the output path does not exist:
    every [save] finds no such file or directory. *)
Definition no_directory : Platform :=
  {| resize_error := fun _ _ => None;
     paste_error := fun _ _ _ => None;
     save_error := fun _ _ _ => Some FileNotFoundError;
     encode_error := fun _ _ _ => None;
     show_error := fun _ _ => None;
     show_tempfile := fun _ _ => Some "/tmp/tmpqr.PNG" |}.

(** A platform whose output format cannot hold an RGB image, as XBM: the
    encoder refuses once the file is open. *)
Definition no_rgb_format : Platform :=
  {| resize_error := fun _ _ => None;
     paste_error := fun _ _ _ => None;
     save_error := fun _ _ _ => None;
     encode_error := fun _ _ _ => Some cannot_write_mode;
     show_error := fun _ _ => None;
     show_tempfile := fun _ _ => Some "/tmp/tmpqr.PNG" |}.

(** A platform on which the file of a logo vanishes once it is opened:
    loading its pixels, which [resize] does, finds no file. *)
Definition vanishing : Platform :=
  {| resize_error := fun _ _ => Some FileNotFoundError;
     paste_error := fun _ _ _ => None;
     save_error := fun _ _ _ => None;
     encode_error := fun _ _ _ => None;
     show_error := fun _ _ => None;
     show_tempfile := fun _ _ => Some "/tmp/tmpqr.PNG" |}.

(** A platform on which the file of a logo is cut short: loading its
    pixels, which [resize] does, fails. *)
Definition cut_short : Platform :=
  {| resize_error := fun _ _ => Some OSError;
     paste_error := fun _ _ _ => None;
     save_error := fun _ _ _ => None;
     encode_error := fun _ _ _ => None;
     show_error := fun _ _ => None;
     show_tempfile := fun _ _ => Some "/tmp/tmpqr.PNG" |}.

(** A 300 x 120 logo. *)
Definition logo : Image := Picture "RGBA" 300 120.

(** A body of [n] letters. *)
Fixpoint filler (n : nat) : string :=
  match n with
  | O => ""
  | S n' => "x" +:+ filler n'
  end.

(** A body of [n] digits. *)
Fixpoint digits (n : nat) : string :=
  match n with
  | O => ""
  | S n' => "7" +:+ digits n'
  end.

(** The logo as [generate_qr_code] resizes it for a 490-pixel image. *)
Definition logo_163 : Image := Resize logo (163, 163).

(** Names: a leading [./] changes nothing. *)
Fixpoint canonical_name (path : string) : string :=
  match path with
  | String c (String d rest) =>
      if Ascii.eqb c "."%char && Ascii.eqb d "/"%char then canonical_name rest else path
  | _ => path
  end.

(** The longest name between two slashes, [current] being the length of the
    name that is being read. *)
Fixpoint longest_name (path : string) (current : nat) : nat :=
  match path with
  | EmptyString => current
  | String c rest =>
      if Ascii.eqb c "/"%char then Nat.max current (longest_name rest 0)
      else longest_name rest (S current)
  end.

Definition below (file path : string) : bool :=
  String.prefix (file +:+ "/") (canonical_name path).

(** The paths that cannot name a file in the directory of the world below:
    a NUL in the path, a name of more than 255 bytes, a path through one of
    the two plain files. *)
Definition verdict (path : string) : option exn :=
  if existsb (Ascii.eqb Ascii.zero) (list_ascii_of_string path)
  then Some ValueError
  else if Nat.ltb 255 (longest_name path 0) then Some OSError
  else if below "logo.png" path || below "broken.png" path
  then Some NotADirectoryError
  else None.

(** A directory with the logo, a damaged file and nothing else. *)
Definition world : World :=
  {| files :=
       {| entries :=
            <["logo.png" := ImageFile logo]> (<["broken.png" := CorruptFile]> ∅);
          canonical := canonical_name;
          unopenable := verdict |};
     trace := [] |}.


End Reference.

(** * Properties *)

(** ** The encoder *)

Section EncoderFacts.

Variable T : QRTables.

Lemma first_fit_range limit need steps v :
  v <= first_fit limit need steps v <= v + Z.of_nat steps.
Proof.
  revert v. induction steps as [|steps IH]; intros v; simpl.
  - lia.
  - destruct (need <=? limit v); [lia|].
    specialize (IH (v + 1)). lia.
Qed.

Lemma first_fit_holds limit need steps v :
  first_fit limit need steps v < v + Z.of_nat steps ->
  need <= limit (first_fit limit need steps v).
Proof.
  revert v. induction steps as [|steps IH]; intros v; simpl.
  - lia.
  - destruct (Z.leb_spec need (limit v)) as [Hle|Hgt]; [lia|].
    intros Hlt. apply IH. lia.
Qed.

Lemma first_fit_here limit need steps v :
  need <= limit v -> first_fit limit need steps v = v.
Proof.
  intros Hle. destruct steps as [|steps]; simpl; [reflexivity|].
  destruct (Z.leb_spec need (limit v)); [reflexivity|lia].
Qed.

Lemma first_fit_least limit need steps v u :
  v <= u < first_fit limit need steps v -> limit u < need.
Proof.
  revert v. induction steps as [|steps IH]; intros v; simpl.
  - lia.
  - destruct (Z.leb_spec need (limit v)) as [Hle|Hgt]; [lia|].
    intros Hu. destruct (Z.eq_dec u v) as [->|Hne]; [exact Hgt|].
    apply (IH (v + 1)). lia.
Qed.

Lemma bisect_left_range ec need start :
  start <= 41 -> start <= bisect_left T ec need start <= 41.
Proof.
  intros Hs. unfold bisect_left.
  pose proof (first_fit_range (bit_limit T ec) need (Z.to_nat (41 - start)) start).
  lia.
Qed.

Lemma bisect_left_holds ec need start :
  start <= 41 ->
  bisect_left T ec need start <> 41 ->
  need <= bit_limit T ec (bisect_left T ec need start).
Proof.
  intros Hs Hne. unfold bisect_left in *.
  apply first_fit_holds.
  pose proof (first_fit_range (bit_limit T ec) need (Z.to_nat (41 - start)) start).
  lia.
Qed.

Lemma bisect_left_here ec need start :
  need <= bit_limit T ec start -> bisect_left T ec need start = start.
Proof. intros Hle. unfold bisect_left. now apply first_fit_here. Qed.

Lemma bisect_left_least ec need start u :
  start <= u < bisect_left T ec need start -> bit_limit T ec u < need.
Proof. unfold bisect_left. apply first_fit_least. Qed.

Lemma check_version_valid v : 1 <= v <= 40 -> check_version v = Return tt.
Proof.
  intros Hv. unfold check_version.
  destruct (Z.ltb_spec v 1), (Z.ltb_spec 40 v); simpl; lia || reflexivity.
Qed.

Lemma check_version_invalid v :
  v < 1 \/ 40 < v -> check_version v = Raise ValueError.
Proof.
  intros Hv. unfold check_version.
  destruct (Z.ltb_spec v 1), (Z.ltb_spec 40 v); simpl; lia || reflexivity.
Qed.

Lemma best_fit_unfold again qr start :
  best_fit T again qr start =
  match check_version start with
  | Raise e => Raise e
  | Return _ =>
      let mode_sizes := mode_sizes_for_version start in
      let needed := needed_bits T mode_sizes (data_list qr) in
      let v := bisect_left T (error_correction qr) needed start in
      match check_version v with
      | Raise e => Raise e
      | Return _ =>
          if v =? 41 then Raise DataOverflowError
          else if ModeSizes_eqb mode_sizes (mode_sizes_for_version v)
          then Return v
          else match again with
               | O => Return v
               | S again' => best_fit T again' qr v
               end
      end
  end.
Proof. destruct again; reflexivity. Qed.

(** The length fields grow with the class: so does the bit stream, when it
    does from each class to the next. *)
Lemma needed_bits_mono data :
  needed_bits T MODE_SIZE_SMALL data <= needed_bits T MODE_SIZE_MEDIUM data ->
  needed_bits T MODE_SIZE_MEDIUM data <= needed_bits T MODE_SIZE_LARGE data ->
  forall a b, (rank a <= rank b)%nat ->
    needed_bits T a data <= needed_bits T b data.
Proof. intros H1 H2 a b. destruct a, b; simpl; lia. Qed.

Lemma ModeSizes_eqb_eq a b : ModeSizes_eqb a b = true <-> a = b.
Proof. destruct a, b; simpl; split; intros H; congruence. Qed.

Lemma mode_sizes_mono a b :
  a <= b ->
  (rank (mode_sizes_for_version a) <= rank (mode_sizes_for_version b))%nat.
Proof.
  intros Hab. unfold mode_sizes_for_version.
  destruct (Z.ltb_spec a 10), (Z.ltb_spec a 27),
    (Z.ltb_spec b 10), (Z.ltb_spec b 27); simpl; lia.
Qed.

Lemma mode_sizes_grow a b :
  a <= b ->
  mode_sizes_for_version a <> mode_sizes_for_version b ->
  (rank (mode_sizes_for_version a) < rank (mode_sizes_for_version b))%nat.
Proof.
  intros Hab Hne. pose proof (mode_sizes_mono a b Hab) as Hle.
  destruct (mode_sizes_for_version a), (mode_sizes_for_version b);
    simpl in *; try lia; congruence.
Qed.

(** One round of [best_fit]: its three outcomes.  When no version holds
    the data, the 41 of the bisection is refused by the setter of
    [version]. *)
Lemma best_fit_round again qr start :
  1 <= start <= 40 ->
  let v := bisect_left T (error_correction qr)
             (needed_bits T (mode_sizes_for_version start) (data_list qr)) start in
  start <= v <= 41 /\
  (v = 41 -> best_fit T again qr start = Raise ValueError) /\
  (v <> 41 ->
   needed_bits T (mode_sizes_for_version start) (data_list qr)
     <= bit_limit T (error_correction qr) v /\
   (mode_sizes_for_version start = mode_sizes_for_version v ->
    best_fit T again qr start = Return v) /\
   (mode_sizes_for_version start <> mode_sizes_for_version v ->
    best_fit T again qr start =
      match again with
      | O => Return v
      | S again' => best_fit T again' qr v
      end)).
Proof.
  intros Hs v.
  assert (Hrange : start <= v <= 41) by (apply bisect_left_range; lia).
  split; [exact Hrange|]. split.
  - intros Hv. rewrite best_fit_unfold, (check_version_valid start Hs).
    cbv zeta. fold v. rewrite (check_version_invalid v) by lia. reflexivity.
  - intros Hv.
    assert (Hneq : (v =? 41) = false) by (apply Z.eqb_neq; exact Hv).
    assert (Hvalid : check_version v = Return tt)
      by (apply check_version_valid; lia).
    split; [apply bisect_left_holds; [lia|exact Hv]|]. split.
    + intros Hsame. apply ModeSizes_eqb_eq in Hsame.
      rewrite best_fit_unfold, (check_version_valid start Hs).
      cbv zeta. fold v. rewrite Hvalid, Hneq, Hsame. reflexivity.
    + intros Hdiff.
      assert (Heqb : ModeSizes_eqb (mode_sizes_for_version start)
                       (mode_sizes_for_version v) = false).
      { destruct (ModeSizes_eqb _ _) eqn:E; [|reflexivity].
        apply ModeSizes_eqb_eq in E. contradiction. }
      rewrite best_fit_unfold, (check_version_valid start Hs).
      cbv zeta. fold v. rewrite Hvalid, Hneq, Heqb. reflexivity.
Qed.

(** With rounds enough for the classes still ahead, the version found holds
    the data as sized for its own class. *)
Lemma best_fit_sound again qr start v :
  1 <= start <= 40 ->
  (2 <= rank (mode_sizes_for_version start) + again)%nat ->
  best_fit T again qr start = Return v ->
  start <= v <= 40 /\
  needed_bits T (mode_sizes_for_version v) (data_list qr)
    <= bit_limit T (error_correction qr) v.
Proof.
  revert start. induction again as [|again IH]; intros start Hs Hrank Hrun.
  - destruct (best_fit_round 0 qr start Hs) as (Hrange & Hfull & Hfound).
    set (v1 := bisect_left _ _ _ _) in *.
    destruct (Z.eq_dec v1 41) as [E|E]; [rewrite (Hfull E) in Hrun; discriminate|].
    destruct (Hfound E) as (Hfits & Hsame & Hdiff).
    assert (Hcls : mode_sizes_for_version start = mode_sizes_for_version v1).
    { pose proof (mode_sizes_mono start v1 (proj1 Hrange)) as Hm.
      destruct (mode_sizes_for_version start), (mode_sizes_for_version v1);
        simpl in *; try reflexivity; lia. }
    rewrite (Hsame Hcls) in Hrun. injection Hrun as <-.
    split; [lia|]. rewrite <- Hcls. exact Hfits.
  - destruct (best_fit_round (S again) qr start Hs) as (Hrange & Hfull & Hfound).
    set (v1 := bisect_left _ _ _ _) in *.
    destruct (Z.eq_dec v1 41) as [E|E]; [rewrite (Hfull E) in Hrun; discriminate|].
    destruct (Hfound E) as (Hfits & Hsame & Hdiff).
    destruct (ModeSizes_eqb (mode_sizes_for_version start)
                (mode_sizes_for_version v1)) eqn:Heqb.
    + apply ModeSizes_eqb_eq in Heqb.
      rewrite (Hsame Heqb) in Hrun. injection Hrun as <-.
      split; [lia|]. rewrite <- Heqb. exact Hfits.
    + assert (Hcls : mode_sizes_for_version start <> mode_sizes_for_version v1).
      { intros Hc. apply ModeSizes_eqb_eq in Hc. congruence. }
      rewrite (Hdiff Hcls) in Hrun.
      pose proof (mode_sizes_grow start v1 (proj1 Hrange) Hcls) as Hgrow.
      destruct (IH v1 ltac:(lia) ltac:(lia) Hrun) as (Hv & Hfit).
      split; [lia|exact Hfit].
Qed.

(** The only failure of [best_fit] from a valid version is the refusal of
    version 41. *)
Lemma best_fit_raises again qr start e :
  1 <= start <= 40 ->
  best_fit T again qr start = Raise e ->
  e = ValueError.
Proof.
  revert start. induction again as [|again IH]; intros start Hs Hrun.
  - destruct (best_fit_round 0 qr start Hs) as (Hrange & Hfull & Hfound).
    set (v1 := bisect_left _ _ _ _) in *.
    destruct (Z.eq_dec v1 41) as [E|E]; [rewrite (Hfull E) in Hrun; congruence|].
    destruct (Hfound E) as (_ & Hsame & Hdiff).
    destruct (ModeSizes_eqb (mode_sizes_for_version start)
                (mode_sizes_for_version v1)) eqn:Heqb.
    + apply ModeSizes_eqb_eq in Heqb. rewrite (Hsame Heqb) in Hrun. discriminate.
    + rewrite Hdiff in Hrun; [discriminate|].
      intros Hc. apply ModeSizes_eqb_eq in Hc. congruence.
  - destruct (best_fit_round (S again) qr start Hs) as (Hrange & Hfull & Hfound).
    set (v1 := bisect_left _ _ _ _) in *.
    destruct (Z.eq_dec v1 41) as [E|E]; [rewrite (Hfull E) in Hrun; congruence|].
    destruct (Hfound E) as (_ & Hsame & Hdiff).
    destruct (ModeSizes_eqb (mode_sizes_for_version start)
                (mode_sizes_for_version v1)) eqn:Heqb.
    + apply ModeSizes_eqb_eq in Heqb. rewrite (Hsame Heqb) in Hrun. discriminate.
    + rewrite Hdiff in Hrun.
      * apply (IH v1); [lia|exact Hrun].
      * intros Hc. apply ModeSizes_eqb_eq in Hc. congruence.
Qed.

(** When some version from [start] on holds the data, sized for its own
    class, [best_fit] finds a version, and none above that one: with
    [best_fit_sound], the version found is the smallest that holds the
    data. *)
Lemma best_fit_least again qr start u :
  (forall a b, (rank a <= rank b)%nat ->
     needed_bits T a (data_list qr) <= needed_bits T b (data_list qr)) ->
  1 <= start <= u -> u <= 40 ->
  (2 <= rank (mode_sizes_for_version start) + again)%nat ->
  needed_bits T (mode_sizes_for_version u) (data_list qr)
    <= bit_limit T (error_correction qr) u ->
  exists v, best_fit T again qr start = Return v /\ start <= v <= u.
Proof.
  intros Hmono. revert start.
  induction again as [|again IH]; intros start Hs Hu Hrank Hfits.
  - destruct (best_fit_round 0 qr start ltac:(lia)) as (Hrange & Hfull & Hfound).
    set (v1 := bisect_left _ _ _ _) in *.
    assert (Hle : v1 <= u).
    { destruct (Z.le_gt_cases v1 u) as [H|H]; [exact H|].
      pose proof (bisect_left_least (error_correction qr)
                    (needed_bits T (mode_sizes_for_version start) (data_list qr))
                    start u) as Hl.
      fold v1 in Hl. specialize (Hl ltac:(lia)).
      pose proof (Hmono _ _ (mode_sizes_mono start u ltac:(lia))). lia. }
    destruct (Hfound ltac:(lia)) as (_ & Hsame & _).
    assert (Hcls : mode_sizes_for_version start = mode_sizes_for_version v1).
    { pose proof (mode_sizes_mono start v1 (proj1 Hrange)) as Hm.
      destruct (mode_sizes_for_version start), (mode_sizes_for_version v1);
        simpl in *; try reflexivity; lia. }
    exists v1. split; [now apply Hsame|lia].
  - destruct (best_fit_round (S again) qr start ltac:(lia))
      as (Hrange & Hfull & Hfound).
    set (v1 := bisect_left _ _ _ _) in *.
    assert (Hle : v1 <= u).
    { destruct (Z.le_gt_cases v1 u) as [H|H]; [exact H|].
      pose proof (bisect_left_least (error_correction qr)
                    (needed_bits T (mode_sizes_for_version start) (data_list qr))
                    start u) as Hl.
      fold v1 in Hl. specialize (Hl ltac:(lia)).
      pose proof (Hmono _ _ (mode_sizes_mono start u ltac:(lia))). lia. }
    destruct (Hfound ltac:(lia)) as (_ & Hsame & Hdiff).
    destruct (ModeSizes_eqb (mode_sizes_for_version start)
                (mode_sizes_for_version v1)) eqn:Heqb.
    + apply ModeSizes_eqb_eq in Heqb. exists v1. split; [now apply Hsame|lia].
    + assert (Hcls : mode_sizes_for_version start <> mode_sizes_for_version v1).
      { intros Hc. apply ModeSizes_eqb_eq in Hc. congruence. }
      pose proof (mode_sizes_grow start v1 (proj1 Hrange) Hcls) as Hgrow.
      rewrite (Hdiff Hcls).
      destruct (IH v1 ltac:(lia) Hu ltac:(lia) Hfits) as (v & Hv & Hvu).
      exists v. split; [exact Hv|lia].
Qed.

(** Data that fits the starting version keeps it. *)
Lemma best_fit_here again qr start :
  1 <= start <= 40 ->
  needed_bits T (mode_sizes_for_version start) (data_list qr)
    <= bit_limit T (error_correction qr) start ->
  best_fit T again qr start = Return start.
Proof.
  intros Hs Hfits.
  destruct (best_fit_round again qr start Hs) as (_ & _ & Hfound).
  rewrite (bisect_left_here _ _ _ Hfits) in Hfound.
  destruct (Hfound ltac:(lia)) as (_ & Hsame & _).
  now apply Hsame.
Qed.

(** Two rounds after the first are always enough: more change nothing. *)
Lemma best_fit_enough again again' qr start :
  1 <= start <= 40 ->
  (2 <= rank (mode_sizes_for_version start) + again)%nat ->
  (2 <= rank (mode_sizes_for_version start) + again')%nat ->
  best_fit T again qr start = best_fit T again' qr start.
Proof.
  revert again' start.
  induction again as [|again IH]; intros again' start Hs Hr Hr'.
  - destruct (best_fit_round 0 qr start Hs) as (Hrange & Hfull & Hfound).
    destruct (best_fit_round again' qr start Hs) as (_ & Hfull' & Hfound').
    set (v1 := bisect_left _ _ _ _) in *.
    destruct (Z.eq_dec v1 41) as [E|E]; [rewrite (Hfull E), (Hfull' E); reflexivity|].
    destruct (Hfound E) as (_ & Hsame & _). destruct (Hfound' E) as (_ & Hsame' & _).
    assert (Hcls : mode_sizes_for_version start = mode_sizes_for_version v1).
    { pose proof (mode_sizes_mono start v1 (proj1 Hrange)) as Hm.
      destruct (mode_sizes_for_version start), (mode_sizes_for_version v1);
        simpl in *; try reflexivity; lia. }
    rewrite (Hsame Hcls), (Hsame' Hcls). reflexivity.
  - destruct (best_fit_round (S again) qr start Hs) as (Hrange & Hfull & Hfound).
    destruct (best_fit_round again' qr start Hs) as (_ & Hfull' & Hfound').
    set (v1 := bisect_left _ _ _ _) in *.
    destruct (Z.eq_dec v1 41) as [E|E]; [rewrite (Hfull E), (Hfull' E); reflexivity|].
    destruct (Hfound E) as (_ & Hsame & Hdiff).
    destruct (Hfound' E) as (_ & Hsame' & Hdiff').
    destruct (ModeSizes_eqb (mode_sizes_for_version start)
                (mode_sizes_for_version v1)) eqn:Heqb.
    + apply ModeSizes_eqb_eq in Heqb. rewrite (Hsame Heqb), (Hsame' Heqb). reflexivity.
    + assert (Hcls : mode_sizes_for_version start <> mode_sizes_for_version v1).
      { intros Hc. apply ModeSizes_eqb_eq in Hc. congruence. }
      pose proof (mode_sizes_grow start v1 (proj1 Hrange) Hcls) as Hgrow.
      rewrite (Hdiff Hcls), (Hdiff' Hcls).
      destruct again' as [|again'].
      * destruct (mode_sizes_for_version start), (mode_sizes_for_version v1);
          simpl in *; lia.
      * apply IH; lia.
Qed.

End EncoderFacts.

(** The rows of the reference table are sorted, as the bisection of the
    library expects: on them the scan of [first_fit] is that bisection. *)
Lemma reference_rows_sorted_check ec :
  forallb
    (fun n => Reference.iso_bit_limit ec (Z.of_nat n)
              <=? Reference.iso_bit_limit ec (Z.of_nat n + 1))
    (seq 0 40) = true.
Proof. destruct ec; vm_compute; reflexivity. Qed.

Lemma reference_rows_sorted ec v :
  0 <= v < 40 ->
  Reference.iso_bit_limit ec v <= Reference.iso_bit_limit ec (v + 1).
Proof.
  intros Hv. pose proof (reference_rows_sorted_check ec) as Hall.
  rewrite forallb_forall in Hall. specialize (Hall (Z.to_nat v)).
  rewrite Z2Nat.id in Hall by lia.
  apply Z.leb_le, Hall, in_seq. lia.
Qed.

(** ** The request made to the encoder *)

Section RequestFacts.

Variable T : QRTables.

Lemma make_request_sound link qr :
  qrcode.make T (qr_request link) true = Return qr ->
  qr = with_version (qr_request link) (version qr) /\
  6 <= version qr <= 40 /\
  needed_bits T (mode_sizes_for_version (version qr)) [link]
    <= bit_limit T ERROR_CORRECT_H (version qr).
Proof.
  unfold qrcode.make. destruct (best_fit T 2 (qr_request link) _) as [v|e] eqn:Hfit;
    [|discriminate].
  intros Hret. injection Hret as <-.
  apply best_fit_sound in Hfit; simpl; [|lia|lia].
  simpl in Hfit. split; [reflexivity|]. exact Hfit.
Qed.

Lemma make_request_raises link e :
  qrcode.make T (qr_request link) true = Raise e -> e = ValueError.
Proof.
  unfold qrcode.make. destruct (best_fit T 2 (qr_request link) _) as [v|e'] eqn:Hfit;
    [discriminate|].
  intros Hret. injection Hret as <-.
  apply best_fit_raises in Hfit; [exact Hfit|simpl; lia].
Qed.

(** The version [make] gives is the smallest that holds the link. *)
Lemma make_request_least link u :
  needed_bits T MODE_SIZE_SMALL [link] <= needed_bits T MODE_SIZE_MEDIUM [link] ->
  needed_bits T MODE_SIZE_MEDIUM [link] <= needed_bits T MODE_SIZE_LARGE [link] ->
  6 <= u <= 40 ->
  needed_bits T (mode_sizes_for_version u) [link]
    <= bit_limit T ERROR_CORRECT_H u ->
  exists qr,
    qrcode.make T (qr_request link) true = Return qr /\
    6 <= version qr <= u.
Proof.
  intros H1 H2 Hu Hfits. unfold qrcode.make.
  destruct (best_fit_least T 2 (qr_request link) 6 u) as (v & Hv & Hvu).
  - apply needed_bits_mono; assumption.
  - lia.
  - lia.
  - simpl. lia.
  - exact Hfits.
  - cbn [version qr_request]. rewrite Hv. eexists. split; [reflexivity|].
    cbn [version with_version]. exact Hvu.
Qed.

Lemma make_request_here link :
  needed_bits T MODE_SIZE_SMALL [link] <= bit_limit T ERROR_CORRECT_H 6 ->
  qrcode.make T (qr_request link) true = Return (qr_request link).
Proof.
  intros Hfits. unfold qrcode.make.
  rewrite best_fit_here; [reflexivity|simpl; lia|exact Hfits].
Qed.

End RequestFacts.

(** ** Strings *)

Lemma append_empty (s : string) : s +:+ "" = s.
Proof.
  induction s as [|c s IH]; [reflexivity|].
  change (String c (s +:+ "") = String c s). now rewrite IH.
Qed.

Lemma append_cancel (p a b : string) : p +:+ a = p +:+ b -> a = b.
Proof.
  induction p as [|c p IH]; intros H; [exact H|].
  change (String c (p +:+ a) = String c (p +:+ b)) in H.
  injection H as H. now apply IH.
Qed.

Lemma email_link_unfold email subject body :
  email_link email subject body =
  "mailto:" +:+ email +:+ "?subject=" +:+ subject +:+ "&body="
  +:+ match body with None => default_body | Some body => body end.
Proof. unfold email_link. cbn [fstring render]. now rewrite append_empty. Qed.

(** ** Files *)

Lemma FileSystem_lookup_insert (fs : FileSystem) (p q : string) (f : File) :
  <[p := f]> fs !! q =
  if decide (canonical fs q = canonical fs p) then Some f else fs !! q.
Proof.
  unfold lookup at 1, FileSystem_lookup, insert, FileSystem_insert.
  cbn [entries canonical unopenable].
  destruct (decide (canonical fs q = canonical fs p)) as [->|Hne].
  - now rewrite lookup_insert_eq.
  - rewrite lookup_insert_ne by congruence. reflexivity.
Qed.

Lemma FileSystem_lookup_insert_eq (fs : FileSystem) (p : string) (f : File) :
  <[p := f]> fs !! p = Some f.
Proof.
  rewrite FileSystem_lookup_insert.
  destruct (decide (canonical fs p = canonical fs p)); [reflexivity|contradiction].
Qed.



(** The file the viewer is given holds the image that was saved: whatever
    its name, it leaves that image at the output path. *)
Lemma with_tempfile_lookup_output tempfile im fs path :
  with_tempfile tempfile im (<[path := ImageFile im]> fs) !! path
  = Some (ImageFile im).
Proof.
  destruct tempfile as [tmp|]; cbn [with_tempfile].
  - rewrite FileSystem_lookup_insert.
    destruct (decide _); [reflexivity|apply FileSystem_lookup_insert_eq].
  - apply FileSystem_lookup_insert_eq.
Qed.


Lemma truncated_trace path w : trace (truncated path w) = trace w.
Proof.
  unfold truncated. destruct (files w !! path) as [[]|]; reflexivity.
Qed.


(** ** The stages of a run *)

Section ScriptFacts.

Variable T : QRTables.
Variable P : Platform.

Lemma new_request :
  qrcode.new 6 ERROR_CORRECT_H 10 4 =
  Return {| version := 6; error_correction := ERROR_CORRECT_H;
            box_size := 10; border := 4; data_list := [] |}.
Proof. reflexivity. Qed.

Lemma qr_image_run link w :
  qr_image T link w =
  match qrcode.make T (qr_request link) true with
  | Return qr => (Return (Convert (QRImage qr "blue" "white") "RGB"), w)
  | Raise e => (Raise e, w)
  end.
Proof.
  unfold qr_image, QRCode_add_data, QRCode_make, QRCode_make_image,
    Image_convert.
  rewrite new_request. unfold bind, lift, ret.
  change (with_data _ link) with (qr_request link).
  destruct (qrcode.make T (qr_request link) true); reflexivity.
Qed.

Lemma generate_qr_code_stages email subject logo_path body output_file w :
  generate_qr_code T P email subject logo_path body output_file w =
  (let* qr_img := composed_image T P email subject logo_path body in
   output P qr_img (default default_output_file output_file)) w.
Proof.
  unfold generate_qr_code, composed_image, output, add_logo, overlay_logo.
  fold (email_link email subject body).
  unfold bind at 1 2 3 4 5. unfold bind at 7 8. rewrite qr_image_run.
  unfold QRCode_add_data, QRCode_make, QRCode_make_image, Image_convert.
  rewrite new_request. unfold lift, ret.
  change (with_data _ (email_link email subject body))
    with (qr_request (email_link email subject body)).
  destruct (qrcode.make T (qr_request (email_link email subject body)) true);
    reflexivity.
Qed.

Lemma composed_image_run email subject logo_path body w :
  composed_image T P email subject logo_path body w =
  match qrcode.make T (qr_request (email_link email subject body)) true with
  | Return qr => add_logo P (Convert (QRImage qr "blue" "white") "RGB") logo_path w
  | Raise e => (Raise e, w)
  end.
Proof.
  unfold composed_image, bind. rewrite qr_image_run.
  destruct (qrcode.make T _ true); reflexivity.
Qed.

Lemma overlay_logo_run qr_img logo_path w :
  overlay_logo P qr_img logo_path w =
  match read_image (files w !! logo_path) with
  | Raise e => (Raise e, w)
  | Return logo =>
      let side := max_logo_size qr_img in
      match resize_error P logo (side, side) with
      | Some e => (Raise e, w)
      | None =>
          let logo' := Resize logo (side, side) in
          match paste_error P qr_img logo' (pos qr_img logo') with
          | Some e => (Raise e, w)
          | None => (Return (Paste qr_img logo' (pos qr_img logo')), w)
          end
      end
  end.
Proof.
  unfold overlay_logo, bind, Image_open, Image_resize, Image_paste.
  destruct (read_image (files w !! logo_path)) as [logo|e]; [|reflexivity].
  cbv zeta.
  destruct (resize_error P logo _) as [e|]; [reflexivity|].
  unfold ret.
  destruct (paste_error P qr_img _ _) as [e|]; reflexivity.
Qed.

Lemma overlay_raises_run qr_img logo_path w e :
  overlay_raises P qr_img logo_path w e ->
  overlay_logo P qr_img logo_path w = (Raise e, w).
Proof.
  intros H. rewrite overlay_logo_run.
  destruct H as [e Hopen|logo e Hopen Hresize|logo e Hopen Hresize Hpaste];
    rewrite Hopen; [reflexivity| |]; cbv zeta; rewrite Hresize; [reflexivity|].
  rewrite Hpaste. reflexivity.
Qed.

Lemma add_logo_raises qr_img logo_path w e :
  overlay_raises P qr_img logo_path w e ->
  add_logo P qr_img logo_path w =
  if isinstance_FileNotFoundError e
  then (Return qr_img, printed logo_not_found_message w)
  else (Raise e, w).
Proof.
  intros H. unfold add_logo, try_except.
  rewrite (overlay_raises_run _ _ _ _ H).
  destruct (isinstance_FileNotFoundError e); reflexivity.
Qed.

Lemma add_logo_pastes qr_img logo_path w logo :
  read_image (files w !! logo_path) = Return logo ->
  let side := max_logo_size qr_img in
  let logo' := Resize logo (side, side) in
  resize_error P logo (side, side) = None ->
  paste_error P qr_img logo' (pos qr_img logo') = None ->
  add_logo P qr_img logo_path w = (Return (Paste qr_img logo' (pos qr_img logo')), w).
Proof.
  intros Hopen side logo' Hresize Hpaste. unfold add_logo, try_except.
  rewrite overlay_logo_run, Hopen. cbv zeta. fold side. rewrite Hresize.
  fold logo'. rewrite Hpaste. reflexivity.
Qed.

(** Whatever the overlay does, the image that leaves it shows the same
    symbol at the same size and in the same mode, and no file was written. *)
Lemma add_logo_keeps qr_img logo_path w im w' :
  add_logo P qr_img logo_path w = (Return im, w') ->
  Image_symbol im = Image_symbol qr_img /\
  Image_size im = Image_size qr_img /\
  Image_mode im = Image_mode qr_img /\
  files w' = files w.
Proof.
  unfold add_logo, try_except. rewrite overlay_logo_run.
  destruct (read_image (files w !! logo_path)) as [logo|e].
  - cbv zeta. destruct (resize_error P logo _) as [e|].
    + destruct (isinstance_FileNotFoundError e); [|discriminate].
      intros H. injection H as <- <-. auto.
    + destruct (paste_error P qr_img _ _) as [e|].
      * destruct (isinstance_FileNotFoundError e); [|discriminate].
        intros H. injection H as <- <-. auto.
      * intros H. injection H as <- <-. auto.
  - destruct (isinstance_FileNotFoundError e); [|discriminate].
    intros H. injection H as <- <-. auto.
Qed.

Lemma add_logo_no_write qr_img logo_path w r w' :
  add_logo P qr_img logo_path w = (r, w') -> files w' = files w.
Proof.
  unfold add_logo, try_except. rewrite overlay_logo_run.
  destruct (read_image (files w !! logo_path)) as [logo|e].
  - cbv zeta. destruct (resize_error P logo _) as [e|].
    + destruct (isinstance_FileNotFoundError e); intros H; injection H as <- <-; auto.
    + destruct (paste_error P qr_img _ _) as [e|].
      * destruct (isinstance_FileNotFoundError e); intros H; injection H as <- <-; auto.
      * intros H. injection H as <- <-. auto.
  - destruct (isinstance_FileNotFoundError e); intros H; injection H as <- <-; auto.
Qed.

Lemma output_run qr_img output_file w :
  output P qr_img output_file w =
  match save_error P w qr_img output_file with
  | Some e => (Raise e, w)
  | None =>
      match encode_error P w qr_img output_file with
      | Some f => (Raise (EncoderError_exn f), truncated output_file w)
      | None =>
          match show_error P (saved output_file qr_img w) qr_img with
          | Some e => (Raise e, saved output_file qr_img w)
          | None =>
              (Return tt,
               printed ("QR code saved as " +:+ output_file)
                 (shown (show_tempfile P (saved output_file qr_img w) qr_img)
                    qr_img (saved output_file qr_img w)))
          end
      end
  end.
Proof.
  unfold output, bind, Image_save, Image_show, print.
  destruct (save_error P w qr_img output_file) as [e|]; [reflexivity|].
  destruct (encode_error P w qr_img output_file) as [f|]; [reflexivity|].
  destruct (show_error P _ qr_img) as [e|]; [reflexivity|].
  cbn [fstring render]. now rewrite append_empty.
Qed.

Lemma Image_save_run qr_img output_file w :
  Image_save P qr_img output_file w =
  match save_error P w qr_img output_file with
  | Some e => (Raise e, w)
  | None =>
      match encode_error P w qr_img output_file with
      | Some f => (Raise (EncoderError_exn f), truncated output_file w)
      | None => (Return tt, saved output_file qr_img w)
      end
  end.
Proof. reflexivity. Qed.

(** The output stage, after [save]. *)
Lemma output_after_save qr_img output_file w :
  output P qr_img output_file w =
  match Image_save P qr_img output_file w with
  | (Raise e, w1) => (Raise e, w1)
  | (Return _, w1) =>
      match show_error P w1 qr_img with
      | Some e => (Raise e, w1)
      | None =>
          (Return tt,
           printed ("QR code saved as " +:+ output_file)
             (shown (show_tempfile P w1 qr_img) qr_img w1))
      end
  end.
Proof.
  unfold output, bind, Image_show, print.
  destruct (Image_save P qr_img output_file w) as [[[]|e] w1]; [|reflexivity].
  destruct (show_error P w1 qr_img) as [e|]; [reflexivity|].
  cbn [fstring render]. now rewrite append_empty.
Qed.

Lemma saved_image_after_save qr_img output_file w :
  saved_image (saved output_file qr_img w) output_file = Some qr_img.
Proof.
  unfold saved_image, saved. cbn [files].
  now rewrite FileSystem_lookup_insert_eq.
Qed.

Lemma saved_image_after_output tempfile qr_img output_file line w :
  saved_image
    (printed line (shown tempfile qr_img (saved output_file qr_img w)))
    output_file
  = Some qr_img.
Proof.
  unfold saved_image, printed, shown, saved. cbn [files].
  now rewrite with_tempfile_lookup_output.
Qed.

Lemma output_success qr_img output_file w w' :
  output P qr_img output_file w = (Return tt, w') ->
  w' = printed ("QR code saved as " +:+ output_file)
         (shown (show_tempfile P (saved output_file qr_img w) qr_img) qr_img
            (saved output_file qr_img w)).
Proof.
  rewrite output_run.
  destruct (save_error P w qr_img output_file) as [e|]; [discriminate|].
  destruct (encode_error P w qr_img output_file) as [f|]; [discriminate|].
  destruct (show_error P _ qr_img) as [e|]; [discriminate|].
  intros H. now injection H as <-.
Qed.

(** A run that returns has encoded the link, kept the symbol through the
    overlay, and left the image at the output path. *)
Lemma generate_qr_code_success email subject logo_path body output_file w w' :
  generate_qr_code T P email subject logo_path body output_file w = (Return tt, w') ->
  exists qr im,
    qrcode.make T (qr_request (email_link email subject body)) true = Return qr /\
    Image_symbol im = Some (qr, "blue", "white") /\
    Image_size im = (pixel_size qr, pixel_size qr) /\
    Image_mode im = "RGB" /\
    saved_image w' (default default_output_file output_file) = Some im.
Proof.
  rewrite generate_qr_code_stages. unfold bind at 1.
  rewrite composed_image_run.
  destruct (qrcode.make T _ true) as [qr|e] eqn:Hmake; [|discriminate].
  destruct (add_logo P _ logo_path w) as [[im|e] w1] eqn:Hlogo; [|discriminate].
  intros Hout. apply output_success in Hout. subst w'.
  destruct (add_logo_keeps _ _ _ _ _ Hlogo) as (Hsym & Hsize & Hmode & _).
  exists qr, im. repeat split; try assumption.
  apply saved_image_after_output.
Qed.

End ScriptFacts.

(** * The stated properties *)

(** ** The link *)

(** C1.  The string handed to the encoder is
    [mailto:{email}?subject={subject}&body={body}] with the three values
    inserted as they are; without a body, the fixed French sentence takes
    its place.  The run is the pipeline fed with that string, and the symbol
    in the image a successful run saves carries exactly that string. *)
Theorem payload_is_verbatim_link (T : QRTables) (P : Platform)
    (email subject logo_path : string) (body output_file : option string) :
  (forall w,
     generate_qr_code T P email subject logo_path body output_file w =
     (let* qr_img :=
        qr_image T
          match body with
          | Some body =>
              "mailto:" +:+ email +:+ "?subject=" +:+ subject +:+ "&body=" +:+ body
          | None =>
              "mailto:" +:+ email +:+ "?subject=" +:+ subject +:+ "&body="
              +:+ "Je suis intéressé(e) à participer à votre étude. Vous pouvez me contacter à cette adresse e-mail ou m'appeler au [votre numéro]."
          end in
      let* qr_img := add_logo P qr_img logo_path in
      output P qr_img (output_path output_file)) w) /\
  (forall w w',
     generate_qr_code T P email subject logo_path body output_file w
       = (Return tt, w') ->
     exists qr im,
       saved_image w' (output_path output_file) = Some im /\
       Image_symbol im = Some (qr, "blue", "white") /\
       data_list qr =
         [match body with
          | Some body =>
              "mailto:" +:+ email +:+ "?subject=" +:+ subject +:+ "&body=" +:+ body
          | None =>
              "mailto:" +:+ email +:+ "?subject=" +:+ subject +:+ "&body="
              +:+ "Je suis intéressé(e) à participer à votre étude. Vous pouvez me contacter à cette adresse e-mail ou m'appeler au [votre numéro]."
          end]).
Proof.
  assert (Hlink :
    email_link email subject body =
    match body with
    | Some body =>
        "mailto:" +:+ email +:+ "?subject=" +:+ subject +:+ "&body=" +:+ body
    | None =>
        "mailto:" +:+ email +:+ "?subject=" +:+ subject +:+ "&body="
        +:+ "Je suis intéressé(e) à participer à votre étude. Vous pouvez me contacter à cette adresse e-mail ou m'appeler au [votre numéro]."
    end).
  { rewrite email_link_unfold. destruct body; reflexivity. }
  rewrite <- Hlink. split.
  - intros w. rewrite generate_qr_code_stages.
    unfold composed_image, bind, output_path.
    destruct (qr_image T _ w) as [[qr_img|e] w1]; reflexivity.
  - intros w w' Hrun.
    destruct (generate_qr_code_success T P _ _ _ _ _ _ _ Hrun)
      as (qr & im & Hmake & Hsym & _ & _ & Hsaved).
    exists qr, im. split; [exact Hsaved|]. split; [exact Hsym|].
    apply make_request_sound in Hmake. destruct Hmake as (-> & _). reflexivity.
Qed.

(** C1 at a run: [a@b.com], subject [Hi], body [B], no logo file. *)
Lemma payload_is_verbatim_link_witness :
  generate_qr_code Reference.tables Reference.sound
    "a@b.com" "Hi" "missing.png" (Some "B") None Reference.world
  = (Return tt,
     snd (generate_qr_code Reference.tables Reference.sound
            "a@b.com" "Hi" "missing.png" (Some "B") None Reference.world)) /\
  exists qr im,
    saved_image
      (snd (generate_qr_code Reference.tables Reference.sound
              "a@b.com" "Hi" "missing.png" (Some "B") None Reference.world))
      "email_qr.png" = Some im /\
    Image_symbol im = Some (qr, "blue", "white") /\
    data_list qr = ["mailto:a@b.com?subject=Hi&body=B"].
Proof.
  split; [vm_compute; reflexivity|].
  apply (proj2 (payload_is_verbatim_link Reference.tables Reference.sound
                  "a@b.com" "Hi" "missing.png" (Some "B") None)
           Reference.world).
  vm_compute. reflexivity.
Defined.

(** C8.  Only a body that is [None] is replaced.  For every string given as
    body, the empty one included, the run is the pipeline fed with the link
    that ends in that string, and the symbol in the image a returning run
    saves carries exactly that link; it carries the link of the default
    sentence only if the body given is that sentence.  With [body=""] the
    link ends in [&body=] and is not the default link; without a body it is
    the default link. *)
Theorem only_None_takes_the_default (T : QRTables) (P : Platform)
    (email subject logo_path : string) (output_file : option string) :
  (forall body w,
     generate_qr_code T P email subject logo_path (Some body) output_file w =
     (let* qr_img :=
        qr_image T
          ("mailto:" +:+ email +:+ "?subject=" +:+ subject +:+ "&body=" +:+ body) in
      let* qr_img := add_logo P qr_img logo_path in
      output P qr_img (output_path output_file)) w) /\
  (forall body w w',
     generate_qr_code T P email subject logo_path (Some body) output_file w
       = (Return tt, w') ->
     exists qr im,
       saved_image w' (output_path output_file) = Some im /\
       Image_symbol im = Some (qr, "blue", "white") /\
       data_list qr =
         ["mailto:" +:+ email +:+ "?subject=" +:+ subject +:+ "&body=" +:+ body] /\
       (data_list qr =
          ["mailto:" +:+ email +:+ "?subject=" +:+ subject +:+ "&body="
           +:+ default_body] ->
        body = default_body)) /\
  (forall w w',
     generate_qr_code T P email subject logo_path (Some "") output_file w
       = (Return tt, w') ->
     exists qr im,
       saved_image w' (output_path output_file) = Some im /\
       Image_symbol im = Some (qr, "blue", "white") /\
       data_list qr =
         ["mailto:" +:+ email +:+ "?subject=" +:+ subject +:+ "&body="] /\
       data_list qr <>
         ["mailto:" +:+ email +:+ "?subject=" +:+ subject +:+ "&body="
          +:+ default_body]) /\
  (forall w w',
     generate_qr_code T P email subject logo_path None output_file w
       = (Return tt, w') ->
     exists qr im,
       saved_image w' (output_path output_file) = Some im /\
       Image_symbol im = Some (qr, "blue", "white") /\
       data_list qr =
         ["mailto:" +:+ email +:+ "?subject=" +:+ subject +:+ "&body="
          +:+ default_body]).
Proof.
  assert (Hdata : forall body w w',
    generate_qr_code T P email subject logo_path body output_file w
      = (Return tt, w') ->
    exists qr im,
      saved_image w' (output_path output_file) = Some im /\
      Image_symbol im = Some (qr, "blue", "white") /\
      data_list qr =
        ["mailto:" +:+ email +:+ "?subject=" +:+ subject +:+ "&body="
         +:+ match body with None => default_body | Some body => body end]).
  { intros body w w' Hrun.
    destruct (generate_qr_code_success T P _ _ _ _ _ _ _ Hrun)
      as (qr & im & Hmake & Hsym & _ & _ & Hsaved).
    exists qr, im. split; [exact Hsaved|]. split; [exact Hsym|].
    apply make_request_sound in Hmake. destruct Hmake as (-> & _).
    cbn [data_list with_version qr_request]. now rewrite email_link_unfold. }
  split; [|split; [|split]].
  - intros body w. rewrite generate_qr_code_stages.
    unfold composed_image, bind, output_path. rewrite email_link_unfold.
    destruct (qr_image T _ w) as [[qr_img|e] w1]; reflexivity.
  - intros body w w' Hrun.
    destruct (Hdata (Some body) w w' Hrun) as (qr & im & Hsaved & Hsym & Hlist).
    exists qr, im. split; [exact Hsaved|]. split; [exact Hsym|].
    split; [exact Hlist|].
    rewrite Hlist. intros H. injection H as H.
    repeat apply append_cancel in H. exact H.
  - intros w w' Hrun.
    destruct (Hdata (Some "") w w' Hrun) as (qr & im & Hsaved & Hsym & Hlist).
    exists qr, im. split; [exact Hsaved|]. split; [exact Hsym|].
    rewrite Hlist. split; [reflexivity|].
    intros H. injection H as H.
    repeat apply append_cancel in H. discriminate H.
  - intros w w' Hrun. exact (Hdata None w w' Hrun).
Qed.

(** C8 at a run with [body=""] and at one with the body [B]. *)
Lemma only_None_takes_the_default_witness :
  generate_qr_code Reference.tables Reference.sound
    "a@b.com" "Hi" "logo.png" (Some "") (Some "out.png") Reference.world
  = (Return tt,
     snd (generate_qr_code Reference.tables Reference.sound
            "a@b.com" "Hi" "logo.png" (Some "") (Some "out.png") Reference.world)) /\
  (exists qr im,
     saved_image
       (snd (generate_qr_code Reference.tables Reference.sound
               "a@b.com" "Hi" "logo.png" (Some "") (Some "out.png") Reference.world))
       "out.png" = Some im /\
     Image_symbol im = Some (qr, "blue", "white") /\
     data_list qr = ["mailto:a@b.com?subject=Hi&body="] /\
     data_list qr <> ["mailto:a@b.com?subject=Hi&body=" +:+ default_body]) /\
  (exists qr im,
     saved_image
       (snd (generate_qr_code Reference.tables Reference.sound
               "a@b.com" "Hi" "logo.png" (Some "B") (Some "out.png") Reference.world))
       "out.png" = Some im /\
     Image_symbol im = Some (qr, "blue", "white") /\
     data_list qr = ["mailto:a@b.com?subject=Hi&body=B"] /\
     (data_list qr = ["mailto:a@b.com?subject=Hi&body=" +:+ default_body] ->
      "B" = default_body)).
Proof.
  split; [vm_compute; reflexivity|]. split.
  - apply (proj1 (proj2 (proj2
             (only_None_takes_the_default Reference.tables Reference.sound
                "a@b.com" "Hi" "logo.png" (Some "out.png"))))
             Reference.world).
    vm_compute. reflexivity.
  - apply (proj1 (proj2
             (only_None_takes_the_default Reference.tables Reference.sound
                "a@b.com" "Hi" "logo.png" (Some "out.png")))
             "B" Reference.world).
    vm_compute. reflexivity.
Defined.

(** ** The logo *)

(** C2.  When there is no file at the logo path, [Image.open] raises
    [FileNotFoundError], the handler prints its message, and the run goes on
    as the output stage of the image without a logo: where the platform lets
    the save and the display through, the run returns, having printed the
    message, saved that image at the output path, shown it and printed the
    confirmation.  Exactly this condition is caught: with any other
    exception of [Image.open] (a path that cannot name a file is refused
    with one, as [NotADirectoryError]) the call, with the same other
    arguments, raises it and leaves the world untouched. *)
Theorem missing_logo_is_skipped (T : QRTables) (P : Platform)
    (email subject logo_path : string) (body output_file : option string)
    (w : World) (qr : QRCode) :
  files w !! logo_path = None ->
  qrcode.make T (qr_request (email_link email subject body)) true = Return qr ->
  save_error P (printed logo_not_found_message w) (rendered qr)
    (output_path output_file) = None ->
  encode_error P (printed logo_not_found_message w) (rendered qr)
    (output_path output_file) = None ->
  show_error P
    (saved (output_path output_file) (rendered qr)
       (printed logo_not_found_message w))
    (rendered qr) = None ->
  read_image (files w !! logo_path) = Raise FileNotFoundError /\
  generate_qr_code T P email subject logo_path body output_file w =
    output P (rendered qr) (output_path output_file)
      (printed logo_not_found_message w) /\
  fst (generate_qr_code T P email subject logo_path body output_file w)
    = Return tt /\
  trace (snd (generate_qr_code T P email subject logo_path body output_file w))
    = trace w ++
      [Printed "Logo file not found. Proceeding without a logo.";
       Saved (output_path output_file) (rendered qr);
       Shown (rendered qr);
       Printed ("QR code saved as " +:+ output_path output_file)] /\
  Image_overlays (rendered qr) = [] /\
  saved_image
    (snd (generate_qr_code T P email subject logo_path body output_file w))
    (output_path output_file) = Some (rendered qr) /\
  (forall path e w2,
     read_image (files w2 !! path) = Raise e ->
     e <> FileNotFoundError ->
     generate_qr_code T P email subject path body output_file w2
       = (Raise e, w2)).
Proof.
  intros Hmissing Hmake Hsave Hencode Hshow.
  assert (Hopen : read_image (files w !! logo_path) = Raise FileNotFoundError)
    by (rewrite Hmissing; reflexivity).
  assert (Hstage :
    generate_qr_code T P email subject logo_path body output_file w =
    output P (rendered qr) (output_path output_file)
      (printed logo_not_found_message w)).
  { rewrite generate_qr_code_stages. unfold bind.
    rewrite composed_image_run, Hmake.
    rewrite (add_logo_raises P _ _ _ FileNotFoundError); [reflexivity|].
    now apply raises_at_open. }
  split; [exact Hopen|]. split; [exact Hstage|].
  split; [|split; [|split; [|split]]].
  - rewrite Hstage, output_run, Hsave, Hencode, Hshow. reflexivity.
  - rewrite Hstage, output_run, Hsave, Hencode, Hshow.
    unfold printed, shown, saved. cbn [snd trace].
    rewrite <- !app_assoc. reflexivity.
  - reflexivity.
  - rewrite Hstage, output_run, Hsave, Hencode, Hshow. cbn [snd].
    apply saved_image_after_output.
  - intros path e w2 Hopen2 Hne.
    rewrite generate_qr_code_stages. unfold bind.
    rewrite composed_image_run, Hmake.
    rewrite (add_logo_raises P _ _ _ e); [|now apply raises_at_open].
    destruct e; try reflexivity. congruence.
Qed.

(** C2 at the run [a@b.com], [Hi], [missing.png], and at the path
    [logo.png/x], which names no file either: [logo.png] is not a
    directory. *)
Lemma missing_logo_is_skipped_witness :
  files Reference.world !! "missing.png" = None /\
  fst (generate_qr_code Reference.tables Reference.sound
         "a@b.com" "Hi" "missing.png" (Some "B") None Reference.world)
    = Return tt /\
  trace (snd (generate_qr_code Reference.tables Reference.sound
                "a@b.com" "Hi" "missing.png" (Some "B") None Reference.world))
    = [Printed "Logo file not found. Proceeding without a logo.";
       Saved "email_qr.png" (rendered (qr_request "mailto:a@b.com?subject=Hi&body=B"));
       Shown (rendered (qr_request "mailto:a@b.com?subject=Hi&body=B"));
       Printed "QR code saved as email_qr.png"] /\
  saved_image
    (snd (generate_qr_code Reference.tables Reference.sound
            "a@b.com" "Hi" "missing.png" (Some "B") None Reference.world))
    "email_qr.png"
    = Some (rendered (qr_request "mailto:a@b.com?subject=Hi&body=B")) /\
  read_image (files Reference.world !! "logo.png/x") = Raise NotADirectoryError /\
  generate_qr_code Reference.tables Reference.sound
    "a@b.com" "Hi" "logo.png/x" (Some "B") None Reference.world
    = (Raise NotADirectoryError, Reference.world).
Proof.
  split; [vm_compute; reflexivity|].
  destruct (missing_logo_is_skipped Reference.tables Reference.sound
              "a@b.com" "Hi" "missing.png" (Some "B") None Reference.world
              (qr_request "mailto:a@b.com?subject=Hi&body=B"))
    as (_ & _ & Hret & Htrace & _ & Hsaved & Hother);
    [vm_compute; reflexivity|vm_compute; reflexivity|vm_compute; reflexivity
    |vm_compute; reflexivity|vm_compute; reflexivity|].
  split; [exact Hret|]. split; [exact Htrace|]. split; [exact Hsaved|].
  split; [vm_compute; reflexivity|].
  apply Hother; [vm_compute; reflexivity|discriminate].
Defined.

(** C3.  A logo that cannot be loaded for any reason other than a missing
    file is not handled: the exception leaves [generate_qr_code], and the
    world is as it was before the call, so no output file was written and
    nothing was printed or shown.  Damaged, unsupported and unreadable files
    are such reasons. *)
Theorem other_load_errors_propagate (T : QRTables) (P : Platform)
    (email subject logo_path : string) (body output_file : option string)
    (w : World) (qr : QRCode) (e : exn) :
  qrcode.make T (qr_request (email_link email subject body)) true = Return qr ->
  read_image (files w !! logo_path) = Raise e ->
  e <> FileNotFoundError ->
  generate_qr_code T P email subject logo_path body output_file w = (Raise e, w) /\
  files (snd (generate_qr_code T P email subject logo_path body output_file w))
    = files w /\
  trace (snd (generate_qr_code T P email subject logo_path body output_file w))
    = trace w /\
  (forall entry,
     entry = CorruptFile \/ entry = UnsupportedFile \/ entry = UnreadableFile ->
     exists e', read_image (Some entry) = Raise e' /\ e' <> FileNotFoundError).
Proof.
  intros Hmake Hopen Hne.
  assert (Hrun :
    generate_qr_code T P email subject logo_path body output_file w = (Raise e, w)).
  { rewrite generate_qr_code_stages. unfold bind.
    rewrite composed_image_run, Hmake.
    rewrite (add_logo_raises P _ _ _ e); [|now apply raises_at_open].
    destruct e; try reflexivity. congruence. }
  split; [exact Hrun|]. rewrite Hrun. split; [reflexivity|]. split; [reflexivity|].
  intros entry [ -> | [ -> | -> ] ]; eexists; (split; [reflexivity|discriminate]).
Qed.

(** C3 at a damaged logo file. *)
Lemma other_load_errors_propagate_witness :
  files Reference.world !! "broken.png" = Some CorruptFile /\
  generate_qr_code Reference.tables Reference.sound
    "x@y.com" "S" "broken.png" (Some "B") (Some "out.png") Reference.world
  = (Raise UnidentifiedImageError, Reference.world) /\
  files Reference.world !! "out.png" = None.
Proof.
  split; [vm_compute; reflexivity|]. split; [|vm_compute; reflexivity].
  apply (other_load_errors_propagate Reference.tables Reference.sound
           "x@y.com" "S" "broken.png" (Some "B") (Some "out.png") Reference.world
           (qr_request "mailto:x@y.com?subject=S&body=B") UnidentifiedImageError).
  - vm_compute. reflexivity.
  - vm_compute. reflexivity.
  - discriminate.
Defined.

(** C10.  The handler guards the whole body of the [try]: whichever of
    [Image.open], [resize] and [paste] raises, a [FileNotFoundError] is
    answered by the message and the output stage of the image without a
    logo, and any other exception leaves [generate_qr_code] with the world
    untouched. *)
Theorem handler_guards_whole_overlay (T : QRTables) (P : Platform)
    (email subject logo_path : string) (body output_file : option string)
    (w : World) (qr : QRCode) (e : exn) :
  qrcode.make T (qr_request (email_link email subject body)) true = Return qr ->
  overlay_raises P (rendered qr) logo_path w e ->
  (e = FileNotFoundError ->
   generate_qr_code T P email subject logo_path body output_file w =
     output P (rendered qr) (output_path output_file)
       (printed logo_not_found_message w)) /\
  (e <> FileNotFoundError ->
   generate_qr_code T P email subject logo_path body output_file w
     = (Raise e, w)).
Proof.
  intros Hmake Hraises. unfold rendered in *.
  rewrite generate_qr_code_stages. unfold bind.
  rewrite composed_image_run, Hmake.
  rewrite (add_logo_raises P _ _ _ e Hraises).
  split.
  - intros ->. reflexivity.
  - intros Hne. destruct e; try reflexivity. congruence.
Qed.

(** C10 at [resize]: where the file of the logo is gone by the time
    [resize] loads it, the run goes on without a logo; where the file is cut
    short, the [OSError] of the loading leaves the function. *)
Lemma handler_guards_whole_overlay_witness :
  overlay_raises Reference.vanishing
    (rendered (qr_request "mailto:x@y.com?subject=S&body=B"))
    "logo.png" Reference.world FileNotFoundError /\
  generate_qr_code Reference.tables Reference.vanishing
    "x@y.com" "S" "logo.png" (Some "B") (Some "out.png") Reference.world
  = output Reference.vanishing
      (rendered (qr_request "mailto:x@y.com?subject=S&body=B")) "out.png"
      (printed logo_not_found_message Reference.world) /\
  overlay_raises Reference.cut_short
    (rendered (qr_request "mailto:x@y.com?subject=S&body=B"))
    "logo.png" Reference.world OSError /\
  generate_qr_code Reference.tables Reference.cut_short
    "x@y.com" "S" "logo.png" (Some "B") (Some "out.png") Reference.world
  = (Raise OSError, Reference.world).
Proof.
  assert (H : overlay_raises Reference.vanishing
                (rendered (qr_request "mailto:x@y.com?subject=S&body=B"))
                "logo.png" Reference.world FileNotFoundError).
  { apply (raises_at_resize _ _ _ _ Reference.logo); vm_compute; reflexivity. }
  assert (H' : overlay_raises Reference.cut_short
                 (rendered (qr_request "mailto:x@y.com?subject=S&body=B"))
                 "logo.png" Reference.world OSError).
  { apply (raises_at_resize _ _ _ _ Reference.logo); vm_compute; reflexivity. }
  split; [exact H|]. split; [|split; [exact H'|]].
  - apply (handler_guards_whole_overlay Reference.tables Reference.vanishing
             "x@y.com" "S" "logo.png" (Some "B") (Some "out.png") Reference.world
             (qr_request "mailto:x@y.com?subject=S&body=B") FileNotFoundError);
      [vm_compute; reflexivity|exact H|reflexivity].
  - apply (handler_guards_whole_overlay Reference.tables Reference.cut_short
             "x@y.com" "S" "logo.png" (Some "B") (Some "out.png") Reference.world
             (qr_request "mailto:x@y.com?subject=S&body=B") OSError);
      [vm_compute; reflexivity|exact H'|discriminate].
Defined.

(** C5.  A logo that loads is resized to the square of side [W // 3], where
    [W] is the width of the image of the symbol, whatever its own shape, and
    pasted with its corner at [((W - w) // 2, (H - h) // 2)]: the margins on
    either side differ by at most one pixel.  The image that goes to the
    output stage has the size of the image without a logo. *)
Theorem logo_is_a_centred_third (T : QRTables) (P : Platform)
    (email subject logo_path : string) (body output_file : option string)
    (w : World) (qr : QRCode) (logo : Image) :
  qrcode.make T (qr_request (email_link email subject body)) true = Return qr ->
  read_image (files w !! logo_path) = Return logo ->
  resize_error P logo
    (max_logo_size (rendered qr), max_logo_size (rendered qr)) = None ->
  paste_error P (rendered qr)
    (Resize logo (max_logo_size (rendered qr), max_logo_size (rendered qr)))
    (pos (rendered qr)
       (Resize logo (max_logo_size (rendered qr), max_logo_size (rendered qr))))
    = None ->
  exists W H side,
    Image_size (rendered qr) = (W, H) /\
    side = W / 3 /\
    0 < side /\
    generate_qr_code T P email subject logo_path body output_file w =
      output P
        (Paste (rendered qr) (Resize logo (side, side))
           ((W - side) / 2, (H - side) / 2))
        (output_path output_file) w /\
    Image_size (Resize logo (side, side)) = (side, side) /\
    Image_size
      (Paste (rendered qr) (Resize logo (side, side))
         ((W - side) / 2, (H - side) / 2)) = (W, H) /\
    Image_overlays
      (Paste (rendered qr) (Resize logo (side, side))
         ((W - side) / 2, (H - side) / 2))
      = [(Resize logo (side, side), ((W - side) / 2, (H - side) / 2))] /\
    0 <= (W - side) / 2 /\
    0 <= (W - side - (W - side) / 2) - (W - side) / 2 <= 1 /\
    0 <= (H - side) / 2 /\
    0 <= (H - side - (H - side) / 2) - (H - side) / 2 <= 1.
Proof.
  intros Hmake Hopen Hresize Hpaste.
  destruct (make_request_sound T _ _ Hmake) as (Hqr & Hv & _).
  assert (Hsize : pixel_size qr = (version qr * 4 + 17 + 4 * 2) * 10)
    by (rewrite Hqr; reflexivity).
  exists (pixel_size qr), (pixel_size qr), (pixel_size qr / 3).
  assert (Hside : 0 < pixel_size qr / 3).
  { apply Z.div_str_pos. lia. }
  assert (Hle : pixel_size qr / 3 <= pixel_size qr).
  { apply Z.div_le_upper_bound; lia. }
  assert (Hmargin : forall d, 0 <= d -> 0 <= d / 2 /\ 0 <= d - d / 2 - d / 2 <= 1).
  { intros d Hd. pose proof (Z.div_mod d 2 ltac:(lia)).
    pose proof (Z.mod_pos_bound d 2 ltac:(lia)). lia. }
  destruct (Hmargin (pixel_size qr - pixel_size qr / 3) ltac:(lia)) as (Hc & Hm).
  split; [reflexivity|]. split; [reflexivity|]. split; [exact Hside|].
  split.
  - rewrite generate_qr_code_stages. unfold bind.
    rewrite composed_image_run, Hmake.
    fold (rendered qr).
    rewrite (add_logo_pastes P _ _ _ logo Hopen Hresize Hpaste).
    reflexivity.
  - repeat split; try reflexivity; lia.
Qed.

(** C5 at a 300 x 120 logo on the 490-pixel image of a version-6 symbol. *)
Lemma logo_is_a_centred_third_witness :
  read_image (files Reference.world !! "logo.png")
    = Return (Picture "RGBA" 300 120) /\
  exists W H side,
    Image_size (rendered (qr_request "mailto:x@y.com?subject=S&body=B")) = (W, H) /\
    side = W / 3 /\
    0 < side /\
    generate_qr_code Reference.tables Reference.sound
      "x@y.com" "S" "logo.png" (Some "B") (Some "out.png") Reference.world =
      output Reference.sound
        (Paste (rendered (qr_request "mailto:x@y.com?subject=S&body=B"))
           (Resize (Picture "RGBA" 300 120) (side, side))
           ((W - side) / 2, (H - side) / 2))
        "out.png" Reference.world /\
    Image_size (Resize (Picture "RGBA" 300 120) (side, side)) = (side, side) /\
    Image_size
      (Paste (rendered (qr_request "mailto:x@y.com?subject=S&body=B"))
         (Resize (Picture "RGBA" 300 120) (side, side))
         ((W - side) / 2, (H - side) / 2)) = (W, H) /\
    Image_overlays
      (Paste (rendered (qr_request "mailto:x@y.com?subject=S&body=B"))
         (Resize (Picture "RGBA" 300 120) (side, side))
         ((W - side) / 2, (H - side) / 2))
      = [(Resize (Picture "RGBA" 300 120) (side, side),
          ((W - side) / 2, (H - side) / 2))] /\
    0 <= (W - side) / 2 /\
    0 <= (W - side - (W - side) / 2) - (W - side) / 2 <= 1 /\
    0 <= (H - side) / 2 /\
    0 <= (H - side - (H - side) / 2) - (H - side) / 2 <= 1.
Proof.
  split; [vm_compute; reflexivity|].
  apply (logo_is_a_centred_third Reference.tables Reference.sound
           "x@y.com" "S" "logo.png" (Some "B") (Some "out.png") Reference.world
           (qr_request "mailto:x@y.com?subject=S&body=B")
           (Picture "RGBA" 300 120));
    vm_compute; reflexivity.
Defined.

(** ** The output stage *)

(** C7.  A run that reaches the output stage saves the image at the output
    path ([email_qr.png] when none is given), then shows it, then prints the
    confirmation with the path, in this order.  A save that fails ends the
    run with its exception, nothing shown and nothing printed.  Once the
    save has returned, the image is at the output path, and a display that
    fails ends the run with its exception and the image still there: the
    failure neither prevents nor undoes the save. *)
Theorem output_saves_then_shows_then_confirms (T : QRTables) (P : Platform)
    (email subject logo_path : string) (body output_file : option string)
    (w w1 : World) (qr_img : Image) :
  composed_image T P email subject logo_path body w = (Return qr_img, w1) ->
  output_path None = "email_qr.png" /\
  (forall e w2,
     Image_save P qr_img (output_path output_file) w1 = (Raise e, w2) ->
     generate_qr_code T P email subject logo_path body output_file w
       = (Raise e, w2) /\
     trace w2 = trace w1) /\
  (forall w2,
     Image_save P qr_img (output_path output_file) w1 = (Return tt, w2) ->
     saved_image w2 (output_path output_file) = Some qr_img /\
     trace w2 = trace w1 ++ [Saved (output_path output_file) qr_img] /\
     (forall e,
        show_error P w2 qr_img = Some e ->
        generate_qr_code T P email subject logo_path body output_file w
          = (Raise e, w2)) /\
     (show_error P w2 qr_img = None ->
      exists w',
        generate_qr_code T P email subject logo_path body output_file w
          = (Return tt, w') /\
        saved_image w' (output_path output_file) = Some qr_img /\
        trace w' =
          trace w2 ++
          [Shown qr_img;
           Printed ("QR code saved as " +:+ output_path output_file)])).
Proof.
  intros Hreach.
  assert (Hrun :
    generate_qr_code T P email subject logo_path body output_file w =
    output P qr_img (output_path output_file) w1).
  { rewrite generate_qr_code_stages. unfold bind. rewrite Hreach. reflexivity. }
  rewrite Hrun, output_after_save.
  split; [reflexivity|]. split.
  - intros e w2 Hsave. rewrite Hsave. split; [reflexivity|].
    rewrite Image_save_run in Hsave.
    destruct (save_error P w1 qr_img _) as [e1|];
      [injection Hsave as _ <-; reflexivity|].
    destruct (encode_error P w1 qr_img _) as [f|]; [|discriminate].
    injection Hsave as _ <-. apply truncated_trace.
  - intros w2 Hsave.
    assert (Hw2 : w2 = saved (output_path output_file) qr_img w1).
    { rewrite Image_save_run in Hsave.
      destruct (save_error P w1 qr_img _) as [e1|]; [discriminate|].
      destruct (encode_error P w1 qr_img _) as [f|]; [discriminate|].
      now injection Hsave. }
    rewrite Hsave. subst w2.
    split; [apply saved_image_after_save|]. split; [reflexivity|]. split.
    + intros e Hshow. rewrite Hshow. reflexivity.
    + intros Hshow. rewrite Hshow. eexists. split; [reflexivity|].
      split; [apply saved_image_after_output|].
      unfold printed, shown. cbn [trace]. rewrite <- app_assoc. reflexivity.
Qed.

(** C7 on a platform where [show] fails, no directory for its temporary
    file being usable: the run ends in the error of [show], and the image is
    at the output path.  On a platform whose format cannot hold the image,
    the run ends in the error of [save] with nothing shown or printed.  On
    a machine without a viewer [show] returns and the run does. *)
Lemma output_saves_then_shows_then_confirms_witness :
  composed_image Reference.tables Reference.no_tempdir
    "a@b.com" "Hi" "logo.png" (Some "B") Reference.world
  = (Return
       (Paste (rendered (qr_request "mailto:a@b.com?subject=Hi&body=B"))
          Reference.logo_163 (163, 163)),
     Reference.world) /\
  generate_qr_code Reference.tables Reference.no_tempdir
    "a@b.com" "Hi" "logo.png" (Some "B") (Some "/srv/qr/out.png") Reference.world
  = (Raise FileNotFoundError,
     saved "/srv/qr/out.png"
       (Paste (rendered (qr_request "mailto:a@b.com?subject=Hi&body=B"))
          Reference.logo_163 (163, 163))
       Reference.world) /\
  saved_image
    (saved "/srv/qr/out.png"
       (Paste (rendered (qr_request "mailto:a@b.com?subject=Hi&body=B"))
          Reference.logo_163 (163, 163))
       Reference.world)
    "/srv/qr/out.png"
  = Some (Paste (rendered (qr_request "mailto:a@b.com?subject=Hi&body=B"))
            Reference.logo_163 (163, 163)) /\
  generate_qr_code Reference.tables Reference.no_rgb_format
    "a@b.com" "Hi" "logo.png" (Some "B") (Some "out.xbm") Reference.world
  = (Raise OSError, Reference.world) /\
  exists w',
    generate_qr_code Reference.tables Reference.headless
      "a@b.com" "Hi" "logo.png" (Some "B") None Reference.world
    = (Return tt, w') /\
    saved_image w' "email_qr.png"
    = Some (Paste (rendered (qr_request "mailto:a@b.com?subject=Hi&body=B"))
              Reference.logo_163 (163, 163)) /\
    trace w' =
      trace
        (saved "email_qr.png"
           (Paste (rendered (qr_request "mailto:a@b.com?subject=Hi&body=B"))
              Reference.logo_163 (163, 163))
           Reference.world) ++
      [Shown
         (Paste (rendered (qr_request "mailto:a@b.com?subject=Hi&body=B"))
            Reference.logo_163 (163, 163));
       Printed "QR code saved as email_qr.png"].
Proof.
  assert (Hreach :
    composed_image Reference.tables Reference.no_tempdir
      "a@b.com" "Hi" "logo.png" (Some "B") Reference.world
    = (Return
         (Paste (rendered (qr_request "mailto:a@b.com?subject=Hi&body=B"))
            Reference.logo_163 (163, 163)),
       Reference.world)) by (vm_compute; reflexivity).
  assert (Hreach' :
    composed_image Reference.tables Reference.no_rgb_format
      "a@b.com" "Hi" "logo.png" (Some "B") Reference.world
    = (Return
         (Paste (rendered (qr_request "mailto:a@b.com?subject=Hi&body=B"))
            Reference.logo_163 (163, 163)),
       Reference.world)) by (vm_compute; reflexivity).
  split; [exact Hreach|].
  destruct (output_saves_then_shows_then_confirms
              Reference.tables Reference.no_tempdir
              "a@b.com" "Hi" "logo.png" (Some "B") (Some "/srv/qr/out.png")
              Reference.world Reference.world _ Hreach)
    as (_ & _ & Hshow).
  destruct (Hshow (saved "/srv/qr/out.png"
                     (Paste (rendered (qr_request "mailto:a@b.com?subject=Hi&body=B"))
                        Reference.logo_163 (163, 163))
                     Reference.world))
    as (Hfile & _ & Hfails & _); [vm_compute; reflexivity|].
  split; [apply (Hfails FileNotFoundError); vm_compute; reflexivity|].
  split; [exact Hfile|].
  destruct (output_saves_then_shows_then_confirms
              Reference.tables Reference.no_rgb_format
              "a@b.com" "Hi" "logo.png" (Some "B") (Some "out.xbm")
              Reference.world Reference.world _ Hreach')
    as (_ & Hsave & _).
  split; [apply (Hsave OSError Reference.world); vm_compute; reflexivity|].
  assert (Hreach'' :
    composed_image Reference.tables Reference.headless
      "a@b.com" "Hi" "logo.png" (Some "B") Reference.world
    = (Return
         (Paste (rendered (qr_request "mailto:a@b.com?subject=Hi&body=B"))
            Reference.logo_163 (163, 163)),
       Reference.world)) by (vm_compute; reflexivity).
  destruct (output_saves_then_shows_then_confirms
              Reference.tables Reference.headless
              "a@b.com" "Hi" "logo.png" (Some "B") None
              Reference.world Reference.world _ Hreach'')
    as (_ & _ & Hshown).
  destruct (Hshown (saved "email_qr.png"
                      (Paste (rendered (qr_request "mailto:a@b.com?subject=Hi&body=B"))
                         Reference.logo_163 (163, 163))
                      Reference.world))
    as (_ & _ & _ & Hreturns); [vm_compute; reflexivity|].
  apply Hreturns. vm_compute. reflexivity.
Defined.

(** ** The symbol *)

(** C9.  The link and the symbol depend on [email], [subject] and [body]
    only: the encoding stage has the same outcome in every world, and two
    runs that return, on whatever platforms, worlds, logo paths and output
    paths, have saved images of one and the same symbol, the request of
    version 6, level H, box size 10, border 4 with the link as its data, at
    the version that fits, in blue on white. *)
Theorem link_and_symbol_depend_on_three_arguments (T : QRTables)
    (email subject : string) (body : option string) :
  (forall w1 w2,
     fst (qr_image T (email_link email subject body) w1)
     = fst (qr_image T (email_link email subject body) w2)) /\
  (forall P1 P2 logo1 logo2 out1 out2 w1 w2 w1' w2',
     generate_qr_code T P1 email subject logo1 body out1 w1 = (Return tt, w1') ->
     generate_qr_code T P2 email subject logo2 body out2 w2 = (Return tt, w2') ->
     exists qr im1 im2,
       saved_image w1' (output_path out1) = Some im1 /\
       saved_image w2' (output_path out2) = Some im2 /\
       Image_symbol im1 = Some (qr, "blue", "white") /\
       Image_symbol im2 = Some (qr, "blue", "white") /\
       qr = with_version (qr_request (email_link email subject body)) (version qr)).
Proof.
  split.
  - intros w1 w2. rewrite !qr_image_run.
    destruct (qrcode.make T _ true); reflexivity.
  - intros P1 P2 logo1 logo2 out1 out2 w1 w2 w1' w2' Hrun1 Hrun2.
    destruct (generate_qr_code_success T P1 _ _ _ _ _ _ _ Hrun1)
      as (qr & im1 & Hmake1 & Hsym1 & _ & _ & Hsaved1).
    destruct (generate_qr_code_success T P2 _ _ _ _ _ _ _ Hrun2)
      as (qr' & im2 & Hmake2 & Hsym2 & _ & _ & Hsaved2).
    assert (qr' = qr) as -> by congruence.
    exists qr, im1, im2. repeat split; try assumption.
    now apply make_request_sound in Hmake1.
Qed.

(** C9 at two runs that differ in everything but the three arguments. *)
Lemma link_and_symbol_depend_on_three_arguments_witness :
  fst (generate_qr_code Reference.tables Reference.sound
         "a@b.com" "Hi" "logo.png" None None Reference.world) = Return tt /\
  fst (generate_qr_code Reference.tables Reference.vanishing
         "a@b.com" "Hi" "missing.png" None (Some "out.png")
         {| files := ∅; trace := [Printed "earlier"] |}) = Return tt /\
  exists qr im1 im2,
    saved_image
      (snd (generate_qr_code Reference.tables Reference.sound
              "a@b.com" "Hi" "logo.png" None None Reference.world))
      "email_qr.png" = Some im1 /\
    saved_image
      (snd (generate_qr_code Reference.tables Reference.vanishing
              "a@b.com" "Hi" "missing.png" None (Some "out.png")
              {| files := ∅; trace := [Printed "earlier"] |}))
      "out.png" = Some im2 /\
    Image_symbol im1 = Some (qr, "blue", "white") /\
    Image_symbol im2 = Some (qr, "blue", "white") /\
    qr = with_version (qr_request (email_link "a@b.com" "Hi" None)) (version qr).
Proof.
  split; [vm_compute; reflexivity|]. split; [vm_compute; reflexivity|].
  apply (proj2 (link_and_symbol_depend_on_three_arguments Reference.tables
                  "a@b.com" "Hi" None)
           Reference.sound Reference.vanishing "logo.png" "missing.png"
           None (Some "out.png")
           Reference.world {| files := ∅; trace := [Printed "earlier"] |});
    vm_compute; reflexivity.
Defined.

(** C4, as stated, fails: the link of [a@b.com], [Hi] and the default body
    needs more bits than a version-6 symbol holds at level H, and [make]
    without fitting would raise; the script fits, and the run returns with a
    version-13 symbol. *)
Lemma version_6_overflow_is_refitted :
  bit_limit Reference.tables ERROR_CORRECT_H 6
    < needed_bits Reference.tables MODE_SIZE_SMALL
        [email_link "a@b.com" "Hi" None] /\
  qrcode.make Reference.tables (qr_request (email_link "a@b.com" "Hi" None)) false
    = Raise DataOverflowError /\
  fst (generate_qr_code Reference.tables Reference.sound
         "a@b.com" "Hi" "missing.png" None None Reference.world) = Return tt /\
  saved_image
    (snd (generate_qr_code Reference.tables Reference.sound
            "a@b.com" "Hi" "missing.png" None None Reference.world))
    "email_qr.png"
  = Some (rendered
            (with_version (qr_request (email_link "a@b.com" "Hi" None)) 13)).
Proof. vm_compute. repeat split; reflexivity. Qed.

(** C4, amended.  The symbol is requested at version 6 and level H and made
    with fitting.  A link that fits version 6 is encoded at version 6.  Any
    symbol made has a version from 6 to 40 that holds the link at level H,
    and the run goes on with it.  When some version from 6 to 40 holds the
    link, the symbol is made, at a version not above that one: the version
    is the smallest that holds the link (the bit stream being no shorter
    with the longer length fields of a higher class of versions).  Only
    when no version from 6 to 40 holds the link does [make] raise; the
    exception is then the [ValueError] with which the library refuses
    version 41, nothing handles it, and it leaves [generate_qr_code] with
    the world untouched. *)
Theorem symbol_is_fitted_from_version_6 (T : QRTables) (P : Platform)
    (email subject logo_path : string) (body output_file : option string)
    (w : World) :
  (needed_bits T MODE_SIZE_SMALL [email_link email subject body]
     <= bit_limit T ERROR_CORRECT_H 6 ->
   qrcode.make T (qr_request (email_link email subject body)) true
     = Return (qr_request (email_link email subject body))) /\
  (forall qr,
     qrcode.make T (qr_request (email_link email subject body)) true = Return qr ->
     6 <= version qr <= 40 /\
     error_correction qr = ERROR_CORRECT_H /\
     needed_bits T (mode_sizes_for_version (version qr))
       [email_link email subject body]
       <= bit_limit T ERROR_CORRECT_H (version qr) /\
     generate_qr_code T P email subject logo_path body output_file w =
       (let* qr_img := add_logo P (rendered qr) logo_path in
        output P qr_img (output_path output_file)) w) /\
  (needed_bits T MODE_SIZE_SMALL [email_link email subject body]
     <= needed_bits T MODE_SIZE_MEDIUM [email_link email subject body] ->
   needed_bits T MODE_SIZE_MEDIUM [email_link email subject body]
     <= needed_bits T MODE_SIZE_LARGE [email_link email subject body] ->
   forall u,
     6 <= u <= 40 ->
     needed_bits T (mode_sizes_for_version u) [email_link email subject body]
       <= bit_limit T ERROR_CORRECT_H u ->
     exists qr,
       qrcode.make T (qr_request (email_link email subject body)) true
         = Return qr /\
       6 <= version qr <= u) /\
  ((forall v, 6 <= v <= 40 ->
      bit_limit T ERROR_CORRECT_H v
        < needed_bits T (mode_sizes_for_version v) [email_link email subject body]) ->
   generate_qr_code T P email subject logo_path body output_file w
     = (Raise ValueError, w)) /\
  (forall e,
     qrcode.make T (qr_request (email_link email subject body)) true = Raise e ->
     e = ValueError /\
     generate_qr_code T P email subject logo_path body output_file w
       = (Raise ValueError, w) /\
     (needed_bits T MODE_SIZE_SMALL [email_link email subject body]
        <= needed_bits T MODE_SIZE_MEDIUM [email_link email subject body] ->
      needed_bits T MODE_SIZE_MEDIUM [email_link email subject body]
        <= needed_bits T MODE_SIZE_LARGE [email_link email subject body] ->
      forall v, 6 <= v <= 40 ->
        bit_limit T ERROR_CORRECT_H v
          < needed_bits T (mode_sizes_for_version v)
              [email_link email subject body])).
Proof.
  assert (Hraise : forall e,
    qrcode.make T (qr_request (email_link email subject body)) true = Raise e ->
    e = ValueError /\
    generate_qr_code T P email subject logo_path body output_file w
      = (Raise ValueError, w)).
  { intros e Hmake. pose proof (make_request_raises T _ _ Hmake) as ->.
    split; [reflexivity|].
    rewrite generate_qr_code_stages. unfold bind.
    rewrite composed_image_run, Hmake. reflexivity. }
  split; [apply make_request_here|]. split; [|split; [|split]].
  - intros qr Hmake.
    destruct (make_request_sound T _ _ Hmake) as (Hqr & Hv & Hfits).
    split; [exact Hv|]. split; [rewrite Hqr; reflexivity|]. split; [exact Hfits|].
    rewrite generate_qr_code_stages. unfold bind at 1.
    rewrite composed_image_run, Hmake. reflexivity.
  - intros H1 H2 u Hu Hfits. now apply make_request_least.
  - intros Hnone.
    destruct (qrcode.make T (qr_request (email_link email subject body)) true)
      as [qr|e] eqn:Hmake.
    + destruct (make_request_sound T _ _ Hmake) as (_ & Hv & Hfits).
      specialize (Hnone (version qr) Hv). lia.
    + now apply (Hraise e).
  - intros e Hmake. destruct (Hraise e Hmake) as (He & Hrun).
    split; [exact He|]. split; [exact Hrun|].
    intros H1 H2 v Hv.
    destruct (Z.lt_ge_cases (bit_limit T ERROR_CORRECT_H v)
                (needed_bits T (mode_sizes_for_version v)
                   [email_link email subject body])) as [Hlt|Hge]; [exact Hlt|].
    destruct (make_request_least T _ v H1 H2 Hv Hge) as (qr & Hret & _).
    rewrite Hret in Hmake. discriminate.
Qed.

(** C4, amended, at three links: the default body, which version 13 holds
    and no version below; 1300 digits, for which version 26 is made; 1300
    letters, too long for any version. *)
Lemma symbol_is_fitted_from_version_6_witness :
  (exists qr,
     qrcode.make Reference.tables (qr_request (email_link "a@b.com" "Hi" None)) true
       = Return qr /\
     6 <= version qr <= 13) /\
  (forall v, 6 <= v < 13 ->
     bit_limit Reference.tables ERROR_CORRECT_H v
       < needed_bits Reference.tables (mode_sizes_for_version v)
           [email_link "a@b.com" "Hi" None]) /\
  (6 <= 26 <= 40 /\
   needed_bits Reference.tables (mode_sizes_for_version 26)
     [email_link "a@b.com" "Hi" (Some (Reference.digits 1300))]
     <= bit_limit Reference.tables ERROR_CORRECT_H 26) /\
  generate_qr_code Reference.tables Reference.sound
    "a@b.com" "Hi" "logo.png" (Some (Reference.filler 1300)) None Reference.world
  = (Raise ValueError, Reference.world).
Proof.
  split; [|split; [|split]].
  - apply (proj1 (proj2 (proj2 (symbol_is_fitted_from_version_6
               Reference.tables Reference.sound
               "a@b.com" "Hi" "logo.png" None None Reference.world))));
      vm_compute; try discriminate; split; discriminate.
  - intros v Hv.
    assert (Hcases : v = 6 \/ v = 7 \/ v = 8 \/ v = 9 \/ v = 10 \/ v = 11 \/ v = 12)
      by lia.
    destruct Hcases as [->|[->|[->|[->|[->|[->| ->]]]]]]; vm_compute; reflexivity.
  - destruct (proj1 (proj2 (symbol_is_fitted_from_version_6
                Reference.tables Reference.sound
                "a@b.com" "Hi" "logo.png" (Some (Reference.digits 1300)) None
                Reference.world))
              (with_version
                 (qr_request
                    (email_link "a@b.com" "Hi" (Some (Reference.digits 1300))))
                 26))
      as (Hv & _ & Hfits & _); [vm_compute; reflexivity|].
    split; [exact Hv|exact Hfits].
  - apply (proj2 (proj2 (proj2 (proj2 (symbol_is_fitted_from_version_6
                Reference.tables Reference.sound
                "a@b.com" "Hi" "logo.png" (Some (Reference.filler 1300)) None
                Reference.world))))
             ValueError).
    vm_compute. reflexivity.
Defined.

(** C6, as stated, fails: the run of [a@b.com], [Hi] and the default body
    returns, and the image it saves is 770 pixels on each side. *)
Lemma default_body_image_is_770_pixels :
  fst (generate_qr_code Reference.tables Reference.sound
         "a@b.com" "Hi" "missing.png" None None Reference.world) = Return tt /\
  Image_size <$>
    saved_image
      (snd (generate_qr_code Reference.tables Reference.sound
              "a@b.com" "Hi" "missing.png" None None Reference.world))
      "email_qr.png"
  = Some (770, 770) /\
  (770, 770) <> (490, 490).
Proof.
  split; [vm_compute; reflexivity|].
  split; [vm_compute; reflexivity|discriminate].
Qed.

(** C6, amended.  The image a successful run saves is RGB and square, of
    side [(modules + 2 * 4) * 10] pixels, where the symbol has
    [4 * v + 17] modules for the version [v] from 6 to 40 that the fitting
    chose.  The version is 6, and the image 490 x 490, exactly when the link
    fits a version-6 symbol at level H. *)
Theorem image_is_RGB_square_of_fitted_version (T : QRTables) (P : Platform)
    (email subject logo_path : string) (body output_file : option string)
    (w w' : World) :
  generate_qr_code T P email subject logo_path body output_file w
    = (Return tt, w') ->
  exists im v,
    saved_image w' (output_path output_file) = Some im /\
    Image_mode im = "RGB" /\
    6 <= v <= 40 /\
    Image_size im = ((v * 4 + 17 + 2 * 4) * 10, (v * 4 + 17 + 2 * 4) * 10) /\
    (v = 6 <->
     needed_bits T MODE_SIZE_SMALL [email_link email subject body]
       <= bit_limit T ERROR_CORRECT_H 6) /\
    (v = 6 -> Image_size im = (490, 490)).
Proof.
  intros Hrun.
  destruct (generate_qr_code_success T P _ _ _ _ _ _ _ Hrun)
    as (qr & im & Hmake & _ & Hsize & Hmode & Hsaved).
  destruct (make_request_sound T _ _ Hmake) as (Hqr & Hv & Hfits).
  assert (Hpx : pixel_size qr = (version qr * 4 + 17 + 2 * 4) * 10).
  { rewrite Hqr. unfold pixel_size, modules_count. simpl. lia. }
  exists im, (version qr).
  split; [exact Hsaved|]. split; [exact Hmode|]. split; [exact Hv|].
  split; [rewrite Hsize, Hpx; reflexivity|]. split; [split|].
  - intros H6. rewrite H6 in Hfits. exact Hfits.
  - intros Hfit6. rewrite (make_request_here T _ Hfit6) in Hmake.
    injection Hmake as <-. reflexivity.
  - intros H6. rewrite Hsize, Hpx, H6. reflexivity.
Qed.

(** C6, amended, at a link that fits version 6. *)
Lemma image_is_RGB_square_of_fitted_version_witness :
  fst (generate_qr_code Reference.tables Reference.sound
         "x@y.com" "S" "logo.png" (Some "B") (Some "out.png") Reference.world)
    = Return tt /\
  exists im v,
    saved_image
      (snd (generate_qr_code Reference.tables Reference.sound
              "x@y.com" "S" "logo.png" (Some "B") (Some "out.png") Reference.world))
      "out.png" = Some im /\
    Image_mode im = "RGB" /\
    6 <= v <= 40 /\
    Image_size im = ((v * 4 + 17 + 2 * 4) * 10, (v * 4 + 17 + 2 * 4) * 10) /\
    (v = 6 <->
     needed_bits Reference.tables MODE_SIZE_SMALL [email_link "x@y.com" "S" (Some "B")]
       <= bit_limit Reference.tables ERROR_CORRECT_H 6) /\
    (v = 6 -> Image_size im = (490, 490)).
Proof.
  split; [vm_compute; reflexivity|].
  apply (image_is_RGB_square_of_fitted_version Reference.tables Reference.sound
           "x@y.com" "S" "logo.png" (Some "B") (Some "out.png") Reference.world).
  vm_compute. reflexivity.
Defined.

(** ** Every run, case by case *)

Section RunFacts.

Variable T : QRTables.
Variable P : Platform.

Lemma overlay_logo_inv qr_img logo_path w e w1 :
  overlay_logo P qr_img logo_path w = (Raise e, w1) ->
  overlay_raises P qr_img logo_path w e /\ w1 = w.
Proof.
  rewrite overlay_logo_run.
  destruct (read_image (files w !! logo_path)) as [logo|e0] eqn:Hopen.
  - cbv zeta.
    destruct (resize_error P logo _) as [e1|] eqn:Hresize.
    + intros H. injection H as <- <-. split; [|reflexivity].
      now apply (raises_at_resize P _ _ _ logo).
    + destruct (paste_error P qr_img _ _) as [e2|] eqn:Hpaste; [|discriminate].
      intros H. injection H as <- <-. split; [|reflexivity].
      now apply (raises_at_paste P _ _ _ logo).
  - intros H. injection H as <- <-. split; [|reflexivity].
    now apply raises_at_open.
Qed.

(** The three ways the [try] statement ends. *)
Lemma add_logo_cases qr_img logo_path w :
  (overlay_raises P qr_img logo_path w FileNotFoundError /\
   add_logo P qr_img logo_path w
     = (Return qr_img, printed logo_not_found_message w)) \/
  (exists e,
     isinstance_FileNotFoundError e = false /\
     overlay_raises P qr_img logo_path w e /\
     add_logo P qr_img logo_path w = (Raise e, w)) \/
  (exists logo,
     read_image (files w !! logo_path) = Return logo /\
     resize_error P logo (max_logo_size qr_img, max_logo_size qr_img) = None /\
     paste_error P qr_img
       (Resize logo (max_logo_size qr_img, max_logo_size qr_img))
       (pos qr_img (Resize logo (max_logo_size qr_img, max_logo_size qr_img)))
       = None /\
     add_logo P qr_img logo_path w =
       (Return
          (Paste qr_img
             (Resize logo (max_logo_size qr_img, max_logo_size qr_img))
             (pos qr_img
                (Resize logo (max_logo_size qr_img, max_logo_size qr_img)))),
        w)).
Proof.
  destruct (overlay_logo P qr_img logo_path w) as [[im|e] w1] eqn:Hbody.
  - right. right. revert Hbody. rewrite overlay_logo_run.
    destruct (read_image (files w !! logo_path)) as [logo|e0] eqn:Hopen;
      [|discriminate].
    cbv zeta.
    destruct (resize_error P logo _) as [e1|] eqn:Hresize; [discriminate|].
    destruct (paste_error P qr_img _ _) as [e2|] eqn:Hpaste; [discriminate|].
    intros _. exists logo. repeat split; try assumption.
    now apply add_logo_pastes.
  - destruct (overlay_logo_inv _ _ _ _ _ Hbody) as (Hraises & ->).
    pose proof (add_logo_raises P _ _ _ _ Hraises) as Hrun.
    destruct e; simpl in Hrun;
      try (right; left;
           match type of Hraises with overlay_raises _ _ _ _ ?x => exists x end;
           split; [reflexivity|split; [exact Hraises|exact Hrun]]).
    left. split; assumption.
Qed.

Lemma generate_qr_code_run email subject logo_path body output_file w :
  generate_qr_code T P email subject logo_path body output_file w =
  match qrcode.make T (qr_request (email_link email subject body)) true with
  | Raise e => (Raise e, w)
  | Return qr =>
      match add_logo P (rendered qr) logo_path w with
      | (Return qr_img, w1) => output P qr_img (output_path output_file) w1
      | (Raise e, w1) => (Raise e, w1)
      end
  end.
Proof.
  rewrite generate_qr_code_stages. unfold bind.
  rewrite composed_image_run.
  destruct (qrcode.make T _ true); reflexivity.
Qed.

(** How the stages before the output end: the encoder or the overlay raised
    and the world is untouched, or an image reaches the output stage, without
    a logo after the message or with the logo pasted. *)
Lemma generate_qr_code_outcomes email subject logo_path body output_file w :
  (exists e,
     generate_qr_code T P email subject logo_path body output_file w = (Raise e, w) /\
     (qrcode.make T (qr_request (email_link email subject body)) true = Raise e \/
      exists qr,
        qrcode.make T (qr_request (email_link email subject body)) true = Return qr /\
        isinstance_FileNotFoundError e = false /\
        overlay_raises P (rendered qr) logo_path w e)) \/
  (exists qr im w1,
     qrcode.make T (qr_request (email_link email subject body)) true = Return qr /\
     ((im = rendered qr /\ w1 = printed logo_not_found_message w /\
       overlay_raises P (rendered qr) logo_path w FileNotFoundError) \/
      (exists logo,
         read_image (files w !! logo_path) = Return logo /\
         im = Paste (rendered qr)
                (Resize logo (max_logo_size (rendered qr), max_logo_size (rendered qr)))
                (pos (rendered qr)
                   (Resize logo
                      (max_logo_size (rendered qr), max_logo_size (rendered qr)))) /\
         w1 = w)) /\
     generate_qr_code T P email subject logo_path body output_file w
       = output P im (output_path output_file) w1).
Proof.
  rewrite generate_qr_code_run.
  destruct (qrcode.make T _ true) as [qr|e] eqn:Hmake.
  - destruct (add_logo_cases (rendered qr) logo_path w)
      as [(Hraises & Hrun)|[(e & Hne & Hraises & Hrun)|(logo & Hopen & _ & _ & Hrun)]];
      rewrite Hrun.
    + right. exists qr, (rendered qr), (printed logo_not_found_message w).
      split; [reflexivity|]. split; [|reflexivity]. left. auto.
    + left. exists e. split; [reflexivity|]. right. exists qr. auto.
    + right. eexists qr, _, w. split; [reflexivity|]. split; [|reflexivity].
      right. exists logo. auto.
  - left. exists e. split; [reflexivity|]. left. reflexivity.
Qed.

(** What a run leaves behind, whatever its end: the events it added and the
    files it holds. *)
Lemma generate_qr_code_effects email subject logo_path body output_file w :
  exists pre,
    (pre = [] \/ pre = [Printed logo_not_found_message]) /\
    ((exists e fs,
        generate_qr_code T P email subject logo_path body output_file w
          = (Raise e, {| files := fs; trace := trace w ++ pre |}) /\
        (fs = files w \/
         files w !! output_path output_file <> None /\
         fs = <[output_path output_file := EmptyFile]> (files w))) \/
     (exists e im,
        generate_qr_code T P email subject logo_path body output_file w
          = (Raise e,
             {| files := <[output_path output_file := ImageFile im]> (files w);
                trace := trace w ++ pre ++ [Saved (output_path output_file) im] |})) \/
     (exists im w2,
        generate_qr_code T P email subject logo_path body output_file w
          = (Return tt,
             {| files :=
                  with_tempfile (show_tempfile P w2 im) im
                    (<[output_path output_file := ImageFile im]> (files w));
                trace :=
                  trace w ++ pre ++
                  [Saved (output_path output_file) im; Shown im;
                   Printed ("QR code saved as " +:+ output_path output_file)] |}))).
Proof.
  destruct (generate_qr_code_outcomes email subject logo_path body output_file w)
    as [(e & Hrun & _)|(qr & im & w1 & _ & Hlogo & Hrun)].
  - exists []. split; [now left|]. left. exists e, (files w).
    rewrite Hrun, app_nil_r. split; [now destruct w|now left].
  - assert (Hw1 : exists pre,
      (pre = [] \/ pre = [Printed logo_not_found_message]) /\
      w1 = {| files := files w; trace := trace w ++ pre |}).
    { destruct Hlogo as [(_ & -> & _)|(logo & _ & _ & ->)].
      - exists [Printed logo_not_found_message]. split; [now right|reflexivity].
      - exists []. split; [now left|]. rewrite app_nil_r. now destruct w. }
    destruct Hw1 as (pre & Hpre & ->). exists pre. split; [exact Hpre|].
    rewrite Hrun, output_run.
    destruct (save_error P _ im _) as [e|];
      [left; exists e, (files w); split; [reflexivity|now left]|].
    destruct (encode_error P _ im _) as [f|].
    { left. unfold truncated. cbn [files trace].
      destruct (files w !! output_path output_file) as [[]|];
        eexists _, _; (split; [reflexivity|]);
        try (now left); right; (split; [discriminate|reflexivity]). }
    destruct (show_error P _ im) as [e|]; right;
      [left; exists e, im|right; eexists im, _];
      unfold printed, shown, saved; cbn [files trace];
      rewrite <- !app_assoc; reflexivity.
Qed.

End RunFacts.

(** * Further properties of the script *)

(** Membership in an explicit list of events, case by case. *)
Ltac in_events :=
  repeat match goal with
    | H : _ \/ _ |- _ => destruct H as [H|H]
    | H : False |- _ => destruct H
    | H : Printed _ = Printed _ |- _ => injection H as H; subst
    | H : Saved _ _ = Saved _ _ |- _ => injection H as ? ?; subst
    | H : Shown _ = Shown _ |- _ => injection H as ?; subst
    | H : Printed _ = Saved _ _ |- _ => discriminate H
    | H : Printed _ = Shown _ |- _ => discriminate H
    | H : Saved _ _ = Printed _ |- _ => discriminate H
    | H : Saved _ _ = Shown _ |- _ => discriminate H
    | H : Shown _ = Printed _ |- _ => discriminate H
    | H : Shown _ = Saved _ _ |- _ => discriminate H
    end.

Lemma message_is_not_confirmation (path : string) :
  logo_not_found_message <> "QR code saved as " +:+ path.
Proof. intros H. discriminate H. Qed.

(** The confirmation is among the events a run added exactly when the run
    returned. *)
Lemma trace_confirms_only_returns (T : QRTables) (P : Platform)
    (email subject logo_path : string) (body output_file : option string)
    (w : World) :
  In (Printed ("QR code saved as " +:+ output_path output_file))
    (new_events w
       (snd (generate_qr_code T P email subject logo_path body output_file w)))
  <-> fst (generate_qr_code T P email subject logo_path body output_file w)
      = Return tt.
Proof.
  pose proof (message_is_not_confirmation (output_path output_file)) as Hmsg.
  destruct (generate_qr_code_effects T P email subject logo_path body output_file w)
    as (pre & Hpre & [(e & fs & -> & _)|[(e & im & ->)|(im & w2 & ->)]]);
    unfold new_events; cbn [fst snd files trace];
    rewrite drop_app_length;
    destruct Hpre as [->| ->]; cbn [app In];
    (split; intros H); in_events;
    try discriminate; try contradiction; try reflexivity; auto 6.
Qed.

(** ** What a run touches and what it leaves *)



(** X2.  A run only appends to the trace.  Among the events it adds, the
    confirmation line is there exactly when the run returned; every save is
    of the output path and of the image the path holds afterwards; and no
    image is shown that was not saved. *)
Theorem trace_records_the_run_in_order (T : QRTables) (P : Platform)
    (email subject logo_path : string) (body output_file : option string)
    (w : World) :
  trace (snd (generate_qr_code T P email subject logo_path body output_file w))
  = trace w ++
    new_events w
      (snd (generate_qr_code T P email subject logo_path body output_file w)) /\
  (fst (generate_qr_code T P email subject logo_path body output_file w)
     = Return tt <->
   In (Printed ("QR code saved as " +:+ output_path output_file))
     (new_events w
        (snd (generate_qr_code T P email subject logo_path body output_file w)))) /\
  (forall path im,
     In (Saved path im)
       (new_events w
          (snd (generate_qr_code T P email subject logo_path body output_file w))) ->
     path = output_path output_file /\
     saved_image
       (snd (generate_qr_code T P email subject logo_path body output_file w))
       path = Some im) /\
  (forall im,
     In (Shown im)
       (new_events w
          (snd (generate_qr_code T P email subject logo_path body output_file w))) ->
     In (Saved (output_path output_file) im)
       (new_events w
          (snd (generate_qr_code T P email subject logo_path body output_file w)))).
Proof.
  pose proof (message_is_not_confirmation (output_path output_file)) as Hmsg.
  destruct (generate_qr_code_effects T P email subject logo_path body output_file w)
    as (pre & Hpre & [(e & fs & -> & _)|[(e & im & ->)|(im & w2 & ->)]]);
    unfold new_events, saved_image; cbn [fst snd files trace];
    rewrite drop_app_length; (split; [reflexivity|]);
    destruct Hpre as [->| ->]; cbn [app In];
    (split; [split; [intros H|intros H]|split; [intros path im0 H|intros im0 H]]);
    in_events;
    try discriminate; try contradiction; try reflexivity;
    try (split; [reflexivity|now rewrite FileSystem_lookup_insert_eq]);
    try (split; [reflexivity|now rewrite with_tempfile_lookup_output]);
    auto 6.
Qed.

(** X3.  In a run that returns, the message about the logo tells what the
    saved image is: it was printed exactly when the image carries no logo;
    otherwise the image carries exactly one, the image of the logo file
    resized and pasted. *)
Theorem message_tells_whether_logo_was_pasted (T : QRTables) (P : Platform)
    (email subject logo_path : string) (body output_file : option string)
    (w w' : World) :
  generate_qr_code T P email subject logo_path body output_file w
    = (Return tt, w') ->
  exists im,
    saved_image w' (output_path output_file) = Some im /\
    (In (Printed logo_not_found_message) (new_events w w') <->
     Image_overlays im = []) /\
    (Image_overlays im <> [] ->
     exists logo side,
       read_image (files w !! logo_path) = Return logo /\
       side = fst (Image_size im) / 3 /\
       Image_overlays im =
         [(Resize logo (side, side),
           ((fst (Image_size im) - side) / 2, (snd (Image_size im) - side) / 2))]).
Proof.
  intros Hrun.
  destruct (generate_qr_code_outcomes T P email subject logo_path body output_file w)
    as [(e & Hraise & _)|(qr & im & w1 & _ & Hlogo & Hout)];
    [rewrite Hraise in Hrun; discriminate|].
  rewrite Hout in Hrun. apply output_success in Hrun. subst w'.
  exists im. split; [apply saved_image_after_output|].
  unfold new_events, printed, shown, saved. cbn [trace].
  destruct Hlogo as [(-> & -> & _)|(logo & Hopen & -> & ->)].
  - unfold printed. cbn [trace]. rewrite <- !app_assoc, drop_app_length.
    split; [split; [reflexivity|intros _; now left]|].
    intros Hne. now contradiction Hne.
  - rewrite <- !app_assoc, drop_app_length. split.
    + split; [intros H; cbn [app In] in H; in_events; discriminate|discriminate].
    + intros _. exists logo, (max_logo_size (rendered qr)).
      split; [exact Hopen|]. split; reflexivity.
Qed.

(** X3 at a run with the logo and no message. *)
Lemma message_tells_whether_logo_was_pasted_witness :
  fst (generate_qr_code Reference.tables Reference.sound
         "x@y.com" "S" "logo.png" (Some "B") (Some "out.png") Reference.world)
    = Return tt /\
  exists im,
    saved_image
      (snd (generate_qr_code Reference.tables Reference.sound
              "x@y.com" "S" "logo.png" (Some "B") (Some "out.png") Reference.world))
      "out.png" = Some im /\
    (In (Printed logo_not_found_message)
       (new_events Reference.world
          (snd (generate_qr_code Reference.tables Reference.sound
                  "x@y.com" "S" "logo.png" (Some "B") (Some "out.png")
                  Reference.world))) <->
     Image_overlays im = []) /\
    (Image_overlays im <> [] ->
     exists logo side,
       read_image (files Reference.world !! "logo.png") = Return logo /\
       side = fst (Image_size im) / 3 /\
       Image_overlays im =
         [(Resize logo (side, side),
           ((fst (Image_size im) - side) / 2, (snd (Image_size im) - side) / 2))]).
Proof.
  split; [vm_compute; reflexivity|].
  apply (message_tells_whether_logo_was_pasted Reference.tables Reference.sound
           "x@y.com" "S" "logo.png" (Some "B") (Some "out.png") Reference.world).
  vm_compute. reflexivity.
Defined.



(** The overlay reads the world at the logo path only, and writes nothing
    but its message. *)
Lemma add_logo_reads_logo_only (P : Platform) qr_img logo_path w1 w2 :
  files w1 !! logo_path = files w2 !! logo_path ->
  exists r pre,
    add_logo P qr_img logo_path w1
      = (r, {| files := files w1; trace := trace w1 ++ pre |}) /\
    add_logo P qr_img logo_path w2
      = (r, {| files := files w2; trace := trace w2 ++ pre |}).
Proof.
  assert (Hsame_world : forall w : World,
    w = {| files := files w; trace := trace w ++ [] |}).
  { intros [fs tr]. cbn [files trace]. now rewrite app_nil_r. }
  intros Hsame. unfold add_logo, try_except. rewrite !overlay_logo_run, Hsame.
  destruct (read_image (files w2 !! logo_path)) as [logo|e].
  - cbv zeta. destruct (resize_error P logo _) as [e|].
    + destruct (isinstance_FileNotFoundError e).
      * eexists _, [Printed logo_not_found_message]. split; reflexivity.
      * eexists _, []. split; [rewrite <- Hsame_world|rewrite <- Hsame_world];
          reflexivity.
    + destruct (paste_error P qr_img _ _) as [e|].
      * destruct (isinstance_FileNotFoundError e).
        -- eexists _, [Printed logo_not_found_message]. split; reflexivity.
        -- eexists _, []. split; [rewrite <- Hsame_world|rewrite <- Hsame_world];
             reflexivity.
      * eexists _, []. split; [rewrite <- Hsame_world|rewrite <- Hsame_world];
          reflexivity.
  - destruct (isinstance_FileNotFoundError e).
    + eexists _, [Printed logo_not_found_message]. split; reflexivity.
    + eexists _, []. split; [rewrite <- Hsame_world|rewrite <- Hsame_world];
        reflexivity.
Qed.

(** X5.  A second run with the same arguments repeats the first, provided
    the first left the logo file as it was (neither its output path nor the
    temporary file of the viewer names the logo): when both runs return, the
    second adds the same events to the trace and leaves the same image at
    the output path. *)
Theorem second_run_repeats_the_first (T : QRTables) (P : Platform)
    (email subject logo_path : string) (body output_file : option string)
    (w w1 w2 : World) :
  files w1 !! logo_path = files w !! logo_path ->
  generate_qr_code T P email subject logo_path body output_file w
    = (Return tt, w1) ->
  generate_qr_code T P email subject logo_path body output_file w1
    = (Return tt, w2) ->
  new_events w1 w2 = new_events w w1 /\
  saved_image w2 (output_path output_file)
    = saved_image w1 (output_path output_file).
Proof.
  intros Hlogo Hrun1 Hrun2.
  rewrite generate_qr_code_run in Hrun1, Hrun2.
  destruct (qrcode.make T _ true) as [qr|e]; [|discriminate].
  destruct (add_logo_reads_logo_only P (rendered qr) logo_path w1 w Hlogo)
    as (r & pre & Hlogo2 & Hlogo1).
  rewrite Hlogo1 in Hrun1. rewrite Hlogo2 in Hrun2.
  destruct r as [im|e]; [|discriminate].
  apply output_success in Hrun1. apply output_success in Hrun2.
  split.
  - rewrite Hrun2. unfold new_events, printed, shown, saved. cbn [trace].
    rewrite <- !app_assoc, drop_app_length.
    rewrite Hrun1. unfold printed, shown, saved. cbn [trace].
    rewrite <- !app_assoc, drop_app_length. reflexivity.
  - rewrite Hrun2, Hrun1. now rewrite !saved_image_after_output.
Qed.

(** X5 at two runs in a row. *)
Lemma second_run_repeats_the_first_witness :
  new_events
    (snd (generate_qr_code Reference.tables Reference.sound
            "x@y.com" "S" "logo.png" (Some "B") (Some "out.png")
            Reference.world))
    (snd (generate_qr_code Reference.tables Reference.sound
            "x@y.com" "S" "logo.png" (Some "B") (Some "out.png")
            (snd (generate_qr_code Reference.tables Reference.sound
                    "x@y.com" "S" "logo.png" (Some "B") (Some "out.png")
                    Reference.world))))
  = new_events Reference.world
      (snd (generate_qr_code Reference.tables Reference.sound
              "x@y.com" "S" "logo.png" (Some "B") (Some "out.png")
              Reference.world)) /\
  saved_image
    (snd (generate_qr_code Reference.tables Reference.sound
            "x@y.com" "S" "logo.png" (Some "B") (Some "out.png")
            (snd (generate_qr_code Reference.tables Reference.sound
                    "x@y.com" "S" "logo.png" (Some "B") (Some "out.png")
                    Reference.world))))
    "out.png"
  = saved_image
      (snd (generate_qr_code Reference.tables Reference.sound
              "x@y.com" "S" "logo.png" (Some "B") (Some "out.png")
              Reference.world))
      "out.png".
Proof.
  apply (second_run_repeats_the_first Reference.tables Reference.sound
           "x@y.com" "S" "logo.png" (Some "B") (Some "out.png")
           Reference.world);
    vm_compute; reflexivity.
Defined.

(** X6.  The image a run saves is a square of 490 to 1850 pixels a side, a
    multiple of 10.  A logo on it is a square of a third of that side, at
    least 163 pixels, lying wholly inside the image at equal distance from
    the left and the top, and covering at most a ninth of it. *)
Theorem image_and_logo_bounds (T : QRTables) (P : Platform)
    (email subject logo_path : string) (body output_file : option string)
    (w w' : World) :
  generate_qr_code T P email subject logo_path body output_file w
    = (Return tt, w') ->
  exists im side,
    saved_image w' (output_path output_file) = Some im /\
    Image_size im = (side, side) /\
    490 <= side <= 1850 /\
    side mod 10 = 0 /\
    (forall src x y,
       In (src, (x, y)) (Image_overlays im) ->
       Image_size src = (side / 3, side / 3) /\
       163 <= side / 3 /\
       x = y /\
       0 <= x /\
       x + side / 3 <= side /\
       9 * (side / 3 * (side / 3)) <= side * side).
Proof.
  intros Hrun.
  destruct (generate_qr_code_outcomes T P email subject logo_path body output_file w)
    as [(e & Hraise & _)|(qr & im & w1 & Hmake & Hlogo & Hout)];
    [rewrite Hraise in Hrun; discriminate|].
  rewrite Hout in Hrun. apply output_success in Hrun. subst w'.
  destruct (make_request_sound T _ _ Hmake) as (Hqr & Hv & _).
  assert (Hpx : pixel_size qr = (version qr * 4 + 25) * 10).
  { rewrite Hqr. unfold pixel_size, modules_count. simpl. lia. }
  assert (Hsize : Image_size im = (pixel_size qr, pixel_size qr)).
  { destruct Hlogo as [(-> & _)|(logo & _ & -> & _)]; reflexivity. }
  exists im, (pixel_size qr).
  split; [apply saved_image_after_output|]. split; [exact Hsize|].
  split; [lia|]. split; [rewrite Hpx; apply Z.mod_mul; lia|].
  intros src x y Hin.
  destruct Hlogo as [(-> & _)|(logo & _ & -> & _)]; [destruct Hin|].
  cbn [Image_overlays rendered app In] in Hin.
  destruct Hin as [Hin|[]]. unfold pos, max_logo_size in Hin.
  cbn [Image_size rendered fst snd] in Hin. injection Hin as <- <- <-.
  cbn [Image_size].
  pose proof (Z.div_mod (pixel_size qr) 3 ltac:(lia)) as Hdiv.
  pose proof (Z.mod_pos_bound (pixel_size qr) 3 ltac:(lia)) as Hmod.
  set (s := pixel_size qr) in *. set (t := s / 3) in *.
  pose proof (Z.div_mod (s - t) 2 ltac:(lia)) as Hdiv2.
  pose proof (Z.mod_pos_bound (s - t) 2 ltac:(lia)) as Hmod2.
  repeat split; try lia; nia.
Qed.

(** X6 at a run with the logo. *)
Lemma image_and_logo_bounds_witness :
  fst (generate_qr_code Reference.tables Reference.sound
         "a@b.com" "Hi" "logo.png" None None Reference.world) = Return tt /\
  exists im side,
    saved_image
      (snd (generate_qr_code Reference.tables Reference.sound
              "a@b.com" "Hi" "logo.png" None None Reference.world))
      "email_qr.png" = Some im /\
    Image_size im = (side, side) /\
    490 <= side <= 1850 /\
    side mod 10 = 0 /\
    (forall src x y,
       In (src, (x, y)) (Image_overlays im) ->
       Image_size src = (side / 3, side / 3) /\
       163 <= side / 3 /\
       x = y /\
       0 <= x /\
       x + side / 3 <= side /\
       9 * (side / 3 * (side / 3)) <= side * side).
Proof.
  split; [vm_compute; reflexivity|].
  apply (image_and_logo_bounds Reference.tables Reference.sound
           "a@b.com" "Hi" "logo.png" None None Reference.world).
  vm_compute. reflexivity.
Defined.

(** X12.  A [FileNotFoundError] that leaves [generate_qr_code] never comes
    from the logo: the image was composed, and the exception is the one of
    the save or of the display, which the handler does not guard. *)
Theorem FileNotFoundError_comes_from_the_output (T : QRTables) (P : Platform)
    (email subject logo_path : string) (body output_file : option string)
    (w w' : World) :
  generate_qr_code T P email subject logo_path body output_file w
    = (Raise FileNotFoundError, w') ->
  exists qr_img w1,
    composed_image T P email subject logo_path body w = (Return qr_img, w1) /\
    (save_error P w1 qr_img (output_path output_file) = Some FileNotFoundError /\
     w' = w1 \/
     save_error P w1 qr_img (output_path output_file) = None /\
     show_error P (saved (output_path output_file) qr_img w1) qr_img
       = Some FileNotFoundError /\
     w' = saved (output_path output_file) qr_img w1).
Proof.
  intros Hrun. rewrite generate_qr_code_run in Hrun.
  rewrite composed_image_run.
  destruct (qrcode.make T _ true) as [qr|e] eqn:Hmake.
  - fold (rendered qr).
    destruct (add_logo_cases P (rendered qr) logo_path w)
      as [(_ & Hlogo)|[(e & Hne & _ & Hlogo)|(logo & _ & _ & _ & Hlogo)]];
      rewrite Hlogo in Hrun |- *.
    + eexists _, _. split; [reflexivity|]. rewrite output_run in Hrun.
      destruct (save_error P _ _ _) as [e1|].
      * injection Hrun as -> <-. now left.
      * destruct (encode_error P _ _ _) as [[]|]; [discriminate|discriminate|].
        destruct (show_error P _ _) as [e2|]; [|discriminate].
        injection Hrun as -> <-. right. auto.
    + injection Hrun as -> _. discriminate Hne.
    + eexists _, _. split; [reflexivity|]. rewrite output_run in Hrun.
      destruct (save_error P _ _ _) as [e1|].
      * injection Hrun as -> <-. now left.
      * destruct (encode_error P _ _ _) as [[]|]; [discriminate|discriminate|].
        destruct (show_error P _ _) as [e2|]; [|discriminate].
        injection Hrun as -> <-. right. auto.
  - pose proof (make_request_raises T _ _ Hmake) as ->. discriminate.
Qed.

(** X12 on a platform whose output directory is missing. *)
Lemma FileNotFoundError_comes_from_the_output_witness :
  generate_qr_code Reference.tables Reference.no_directory
    "a@b.com" "Hi" "logo.png" (Some "B") (Some "gone/out.png") Reference.world
  = (Raise FileNotFoundError, Reference.world) /\
  exists qr_img w1,
    composed_image Reference.tables Reference.no_directory
      "a@b.com" "Hi" "logo.png" (Some "B") Reference.world = (Return qr_img, w1) /\
    (save_error Reference.no_directory w1 qr_img "gone/out.png"
       = Some FileNotFoundError /\
     Reference.world = w1 \/
     save_error Reference.no_directory w1 qr_img "gone/out.png" = None /\
     show_error Reference.no_directory (saved "gone/out.png" qr_img w1) qr_img
       = Some FileNotFoundError /\
     Reference.world = saved "gone/out.png" qr_img w1).
Proof.
  assert (Hrun :
    generate_qr_code Reference.tables Reference.no_directory
      "a@b.com" "Hi" "logo.png" (Some "B") (Some "gone/out.png") Reference.world
    = (Raise FileNotFoundError, Reference.world)) by (vm_compute; reflexivity).
  split; [exact Hrun|].
  exact (FileNotFoundError_comes_from_the_output
           Reference.tables Reference.no_directory
           "a@b.com" "Hi" "logo.png" (Some "B") (Some "gone/out.png")
           Reference.world Reference.world Hrun).
Defined.

(** ** The link, once more *)

Lemma append_assoc (a b c : string) : (a +:+ b) +:+ c = a +:+ b +:+ c.
Proof.
  induction a as [|x a IH]; [reflexivity|].
  change (String x ((a +:+ b) +:+ c) = String x (a +:+ b +:+ c)). now rewrite IH.
Qed.

Lemma length_append (a b : string) :
  String.length (a +:+ b) = (String.length a + String.length b)%nat.
Proof.
  induction a as [|x a IH]; [reflexivity|].
  change (S (String.length (a +:+ b)) = S (String.length a + String.length b)).
  now rewrite IH.
Qed.

Lemma email_link_length email subject body :
  String.length (email_link email subject body) =
  (22 + String.length email + String.length subject
   + String.length match body with None => default_body | Some body => body end)%nat.
Proof.
  rewrite email_link_unfold, !length_append.
  change (String.length "mailto:") with 7%nat.
  change (String.length "?subject=") with 9%nat.
  change (String.length "&body=") with 6%nat. lia.
Qed.

(** X7.  Nothing in the link separates its parts: a call whose subject
    contains [&body=] runs exactly as the call with the shorter subject and
    the rest moved to the body, and likewise for an address that contains
    [?subject=]. *)
Theorem link_cannot_tell_its_parts_apart (T : QRTables) (P : Platform)
    (email subject extra body logo_path : string)
    (any_body output_file : option string) (w : World) :
  generate_qr_code T P email (subject +:+ "&body=" +:+ extra) logo_path
    (Some body) output_file w
  = generate_qr_code T P email subject logo_path
      (Some (extra +:+ "&body=" +:+ body)) output_file w /\
  generate_qr_code T P (email +:+ "?subject=" +:+ extra) subject logo_path
    any_body output_file w
  = generate_qr_code T P email (extra +:+ "?subject=" +:+ subject) logo_path
      any_body output_file w.
Proof.
  assert (Hbody :
    email_link email (subject +:+ "&body=" +:+ extra) (Some body)
    = email_link email subject (Some (extra +:+ "&body=" +:+ body))).
  { rewrite !email_link_unfold, !append_assoc. reflexivity. }
  assert (Hsubject :
    email_link (email +:+ "?subject=" +:+ extra) subject any_body
    = email_link email (extra +:+ "?subject=" +:+ subject) any_body).
  { rewrite !email_link_unfold, !append_assoc. reflexivity. }
  rewrite !generate_qr_code_run, Hbody, Hsubject. split; reflexivity.
Qed.

(** ** The reference encoder: its segments *)

Section Segments.
Import Reference.

Lemma joined_app {A : Type} (a b : list (A * string)) :
  joined (a ++ b) = joined a +:+ joined b.
Proof.
  induction a as [|piece a IH]; [reflexivity|].
  cbn [app joined]. now rewrite IH, append_assoc.
Qed.

Lemma joined_chunk is_match text : joined (chunk is_match text) = text.
Proof.
  unfold chunk. destruct (String.eqb_spec text "") as [->|_]; [reflexivity|].
  cbn [joined snd]. apply append_empty.
Qed.

Lemma count_outside_append inset a b :
  count_outside inset (a +:+ b)
  = (count_outside inset a + count_outside inset b)%nat.
Proof.
  induction a as [|c a IH]; [reflexivity|].
  change (String c a +:+ b) with (String c (a +:+ b)).
  cbn [count_outside]. rewrite IH. lia.
Qed.

Lemma count_outside_length inset s :
  (count_outside inset s <= String.length s)%nat.
Proof.
  induction s as [|c s IH]; [reflexivity|].
  cbn [count_outside String.length]. destruct (inset c); lia.
Qed.

Lemma count_outside_forallb inset s :
  forallb inset (list_ascii_of_string s) = true -> count_outside inset s = 0%nat.
Proof.
  induction s as [|c s IH]; [reflexivity|].
  cbn [list_ascii_of_string forallb count_outside].
  destruct (inset c); [|discriminate]. exact IH.
Qed.

Lemma count_outside_weaken (inset inset' : ascii -> bool) s :
  (forall c, inset c = true -> inset' c = true) ->
  count_outside inset s = 0%nat -> count_outside inset' s = 0%nat.
Proof.
  intros Hsub. induction s as [|c s IH]; [reflexivity|].
  cbn [count_outside]. destruct (inset c) eqn:E; [|discriminate].
  rewrite (Hsub c E). exact IH.
Qed.

Lemma chunk_false_matched inset text :
  Forall (fun piece => fst piece = true -> count_outside inset (snd piece) = 0%nat)
    (chunk false text).
Proof.
  unfold chunk. destruct (String.eqb text ""); [constructor|].
  constructor; [discriminate|constructor].
Qed.

Lemma split_runs_spec inset minimum data text run :
  count_outside inset run = 0%nat ->
  split_of inset (text +:+ run +:+ data) (split_runs inset minimum data text run).
Proof.
  revert text run. induction data as [|c data IH]; intros text run Hrun.
  - cbn [split_runs]. unfold close_run.
    destruct (Nat.leb minimum (String.length run)).
    + split.
      * rewrite !joined_app, !joined_chunk. cbn [joined snd].
        now rewrite !append_empty.
      * apply Forall_app. split; [|apply chunk_false_matched].
        apply Forall_app. split; [apply chunk_false_matched|].
        constructor; [intros _; exact Hrun|constructor].
    + split.
      * cbn [app]. rewrite joined_chunk. now rewrite append_empty.
      * apply chunk_false_matched.
  - cbn [split_runs]. destruct (inset c) eqn:Hc.
    + destruct (IH text (run +:+ String c "")) as (Hjoin & Hall).
      { rewrite count_outside_append. cbn [count_outside]. rewrite Hc, Hrun.
        reflexivity. }
      split; [|exact Hall].
      rewrite Hjoin, !append_assoc. reflexivity.
    + unfold close_run. destruct (Nat.leb minimum (String.length run)).
      * destruct (IH ("" +:+ String c "") "" eq_refl) as (Hjoin & Hall).
        split.
        -- rewrite !joined_app, joined_chunk, Hjoin. cbn [joined snd].
           rewrite !append_assoc. reflexivity.
        -- apply Forall_app. split; [|exact Hall].
           apply Forall_app. split; [apply chunk_false_matched|].
           constructor; [intros _; exact Hrun|constructor].
      * destruct (IH ((text +:+ run) +:+ String c "") "" eq_refl) as (Hjoin & Hall).
        split; [|exact Hall].
        cbn [app]. rewrite Hjoin, !append_assoc. reflexivity.
Qed.

Lemma strip_newline_spec data body :
  strip_newline data = Some body ->
  data = body +:+ String (ascii_of_nat 10) "".
Proof.
  revert body. induction data as [|c data IH]; intros body; [discriminate|].
  cbn [strip_newline]. destruct data as [|d data].
  - destruct (Ascii.eqb_spec c (ascii_of_nat 10)) as [->|_]; [|discriminate].
    intros H. injection H as <-. reflexivity.
  - destruct (strip_newline (String d data)) as [body'|]; [|discriminate].
    intros H. injection H as <-.
    change (String c body' +:+ String (ascii_of_nat 10) "")
      with (String c (body' +:+ String (ascii_of_nat 10) "")).
    now rewrite <- (IH body' eq_refl).
Qed.

Lemma all_of_matched inset s :
  all_of inset s = true -> count_outside inset s = 0%nat.
Proof.
  unfold all_of. intros H. apply andb_true_iff in H. destruct H as (_ & H).
  now apply count_outside_forallb.
Qed.

Lemma split_whole_spec inset data : split_of inset data (split_whole inset data).
Proof.
  unfold split_whole. destruct (all_of inset data) eqn:Hall.
  - split; [cbn [joined snd]; apply append_empty|].
    constructor; [intros _; now apply all_of_matched|constructor].
  - destruct (strip_newline data) as [body|] eqn:Hstrip.
    + destruct (all_of inset body) eqn:Hbody.
      * split.
        -- cbn [joined snd]. rewrite append_empty.
           symmetry. now apply strip_newline_spec.
        -- constructor; [intros _; now apply all_of_matched|].
           constructor; [discriminate|constructor].
      * split; [apply joined_chunk|apply chunk_false_matched].
    + split; [apply joined_chunk|apply chunk_false_matched].
Qed.

Lemma optimal_split_spec inset short data :
  split_of inset data (optimal_split inset short data).
Proof.
  unfold optimal_split. destruct short; [apply split_whole_spec|].
  apply (split_runs_spec inset 20 data "" "" eq_refl).
Qed.

Lemma is_digit_alpha_num c : is_digit c = true -> is_alpha_num c = true.
Proof. unfold is_alpha_num. now intros ->. Qed.

(** The segments: together they are the data, and only a byte segment holds
    a byte outside the alphanumeric class. *)
Lemma optimal_data_chunks_spec data :
  joined (optimal_data_chunks data) = data /\
  Forall (fun segment =>
            fst segment <> MODE_8BIT_BYTE ->
            count_outside is_alpha_num (snd segment) = 0%nat)
    (optimal_data_chunks data).
Proof.
  unfold optimal_data_chunks.
  set (short := Nat.leb (String.length data) 20).
  destruct (optimal_split_spec is_digit short data) as (Hjoin & Hall).
  rewrite <- Hjoin at 2. clear Hjoin.
  induction Hall as [|part parts Hpart _ IH]; [split; [reflexivity|constructor]|].
  destruct IH as (IHjoin & IHall). cbn [flat_map joined].
  rewrite joined_app, IHjoin.
  destruct part as [[] text]; cbn [fst snd] in *.
  - split; [cbn [joined snd]; now rewrite append_empty|].
    constructor; [|exact IHall].
    intros _. apply (count_outside_weaken is_digit); [apply is_digit_alpha_num|].
    now apply Hpart.
  - destruct (optimal_split_spec is_alpha_num short text) as (Hjoin' & Hall').
    split.
    + f_equal. rewrite <- Hjoin' at 2. clear.
      induction (optimal_split is_alpha_num short text) as [|sub subs IH];
        [reflexivity|].
      cbn [map joined snd]. now rewrite IH.
    + apply Forall_app. split; [|exact IHall]. clear -Hall'.
      induction Hall' as [|sub subs Hsub _ IH]; [constructor|].
      cbn [map]. constructor; [|exact IH].
      cbn [fst snd]. destruct sub as [[] sub]; cbn [fst snd] in *.
      * intros _. now apply Hsub.
      * intros H. now contradiction H.
Qed.

Lemma length_bits_pos mode ms : 0 <= length_bits mode ms.
Proof. destruct mode, ms; simpl; lia. Qed.

Lemma data_bits_bound mode n : 0 <= n -> 10 * n <= 3 * data_bits mode n.
Proof.
  intros Hn. destruct mode; cbn [data_bits].
  - pose proof (Z.div_mod n 3 ltac:(lia)) as Hdiv.
    pose proof (Z.mod_pos_bound n 3 ltac:(lia)) as Hmod.
    destruct (Z.eqb_spec (n mod 3) 1); [lia|].
    destruct (Z.eqb_spec (n mod 3) 2); lia.
  - pose proof (Z.div_mod n 2 ltac:(lia)) as Hdiv.
    pose proof (Z.mod_pos_bound n 2 ltac:(lia)) as Hmod. lia.
  - lia.
Qed.

(** Every byte costs at least ten thirds of a bit. *)
Lemma segments_bits_length ms segments :
  10 * Z.of_nat (String.length (joined segments)) <= 3 * segments_bits ms segments.
Proof.
  induction segments as [|segment segments IH]; [simpl; lia|].
  cbn [joined segments_bits]. rewrite length_append. unfold segment_bits.
  pose proof (length_bits_pos (fst segment) ms).
  pose proof (data_bits_bound (fst segment)
                (Z.of_nat (String.length (snd segment))) ltac:(lia)).
  lia.
Qed.

(** A byte outside the alphanumeric class costs eight bits. *)
Lemma segments_bits_outside ms segments :
  Forall (fun segment =>
            fst segment <> MODE_8BIT_BYTE ->
            count_outside is_alpha_num (snd segment) = 0%nat) segments ->
  8 * Z.of_nat (count_outside is_alpha_num (joined segments))
    <= segments_bits ms segments.
Proof.
  induction 1 as [|segment segments Hsegment _ IH]; [simpl; lia|].
  cbn [joined segments_bits]. rewrite count_outside_append. unfold segment_bits.
  pose proof (length_bits_pos (fst segment) ms).
  pose proof (data_bits_bound (fst segment)
                (Z.of_nat (String.length (snd segment))) ltac:(lia)).
  destruct segment as [[] text]; cbn [fst snd] in *.
  - rewrite Hsegment by discriminate.
    pose proof (Nat2Z.is_nonneg (String.length text)). lia.
  - rewrite Hsegment by discriminate.
    pose proof (Nat2Z.is_nonneg (String.length text)). lia.
  - pose proof (count_outside_length is_alpha_num text). cbn [data_bits] in *. lia.
Qed.

Lemma reference_bits_length ms link :
  10 * Z.of_nat (String.length link) <= 3 * needed_bits tables ms [link].
Proof.
  cbn [needed_bits tables stream_bits].
  pose proof (segments_bits_length ms (optimal_data_chunks link)) as H.
  rewrite (proj1 (optimal_data_chunks_spec link)) in H. lia.
Qed.

Lemma reference_bits_outside ms link :
  8 * Z.of_nat (count_outside is_alpha_num link) <= needed_bits tables ms [link].
Proof.
  cbn [needed_bits tables stream_bits].
  pose proof (segments_bits_outside ms (optimal_data_chunks link)
                (proj2 (optimal_data_chunks_spec link))) as H.
  rewrite (proj1 (optimal_data_chunks_spec link)) in H. lia.
Qed.

(** The bit stream is no shorter with the length fields of a higher class. *)
Lemma reference_bits_grow a b data :
  (rank a <= rank b)%nat ->
  needed_bits tables a data <= needed_bits tables b data.
Proof.
  intros Hrank. cbn [needed_bits tables].
  assert (Hseg : forall segments, segments_bits a segments <= segments_bits b segments).
  { induction segments as [|segment segments IH]; [reflexivity|].
    cbn [segments_bits]. unfold segment_bits.
    assert (length_bits (fst segment) a <= length_bits (fst segment) b)
      by (destruct (fst segment), a, b; simpl in *; lia).
    lia. }
  induction data as [|d data IH]; [reflexivity|].
  cbn [stream_bits]. specialize (Hseg (optimal_data_chunks d)). lia.
Qed.

End Segments.

(** What versions up to 10, and up to 40, hold at level H. *)
Lemma reference_H_bounds_check :
  forallb
    (fun n => Reference.iso_bit_limit ERROR_CORRECT_H (Z.of_nat n)
              <=? (if Z.of_nat n <? 11 then 976 else 10208))
    (seq 0 41) = true.
Proof. vm_compute. reflexivity. Qed.

Lemma reference_H_bounds v :
  0 <= v <= 40 ->
  Reference.iso_bit_limit ERROR_CORRECT_H v <= (if v <? 11 then 976 else 10208).
Proof.
  intros Hv. pose proof reference_H_bounds_check as Hall.
  rewrite forallb_forall in Hall. specialize (Hall (Z.to_nat v)).
  rewrite Z2Nat.id in Hall by lia.
  apply Z.leb_le, Hall, in_seq. lia.
Qed.

(** X8.  With the capacities of the standard and the segments python-qrcode
    cuts a link into, [make] gives the smallest version from 6 to 40 that
    holds the link.  Every byte of a link costs at least ten thirds of a
    bit, and version 40 holds 10208 bits at level H: a run whose address,
    subject and body have more than 3040 bytes together ends in the
    [ValueError] of the encoder with nothing done, whatever the bytes. *)
Theorem reference_encoder_fits_or_refuses (P : Platform)
    (email subject logo_path : string) (body output_file : option string)
    (w : World) :
  (forall u,
     6 <= u <= 40 ->
     needed_bits Reference.tables (mode_sizes_for_version u)
       [email_link email subject body]
       <= bit_limit Reference.tables ERROR_CORRECT_H u ->
     exists qr,
       qrcode.make Reference.tables (qr_request (email_link email subject body)) true
         = Return qr /\
       6 <= version qr <= u /\
       needed_bits Reference.tables (mode_sizes_for_version (version qr))
         [email_link email subject body]
         <= bit_limit Reference.tables ERROR_CORRECT_H (version qr)) /\
  ((3040 < String.length email + String.length subject
           + String.length match body with None => default_body | Some body => body end)%nat ->
   generate_qr_code Reference.tables P email subject logo_path body output_file w
   = (Raise ValueError, w)).
Proof.
  split.
  - intros u Hu Hfits.
    destruct (make_request_least Reference.tables (email_link email subject body) u)
      as (qr & Hmake & Hv); try assumption;
      try (apply reference_bits_grow; simpl; lia).
    exists qr. split; [exact Hmake|]. split; [exact Hv|].
    now apply make_request_sound in Hmake.
  - intros Hlong. rewrite generate_qr_code_run.
    destruct (qrcode.make Reference.tables _ true) as [qr|e] eqn:Hmake.
    + destruct (make_request_sound _ _ _ Hmake) as (_ & Hv & Hfits).
      pose proof (reference_bits_length (mode_sizes_for_version (version qr))
                    (email_link email subject body)) as Hbits.
      rewrite email_link_length in Hbits.
      pose proof (reference_H_bounds (version qr) ltac:(lia)) as Hcap.
      change (bit_limit Reference.tables ERROR_CORRECT_H (version qr))
        with (Reference.iso_bit_limit ERROR_CORRECT_H (version qr)) in Hfits.
      destruct (version qr <? 11); lia.
    + now rewrite (make_request_raises _ _ _ Hmake).
Qed.

(** X8 at 1300 digits, which version 26 holds, and at 3100 digits. *)
Lemma reference_encoder_fits_or_refuses_witness :
  (exists qr,
     qrcode.make Reference.tables
       (qr_request (email_link "a@b.com" "Hi" (Some (Reference.digits 1300)))) true
       = Return qr /\
     6 <= version qr <= 26 /\
     needed_bits Reference.tables (mode_sizes_for_version (version qr))
       [email_link "a@b.com" "Hi" (Some (Reference.digits 1300))]
       <= bit_limit Reference.tables ERROR_CORRECT_H (version qr)) /\
  generate_qr_code Reference.tables Reference.sound
    "a@b.com" "Hi" "logo.png" (Some (Reference.digits 3100)) None Reference.world
  = (Raise ValueError, Reference.world).
Proof.
  split.
  - apply (proj1 (reference_encoder_fits_or_refuses Reference.sound
                    "a@b.com" "Hi" "logo.png" (Some (Reference.digits 1300)) None
                    Reference.world) 26);
      [lia|vm_compute; discriminate].
  - apply (proj2 (reference_encoder_fits_or_refuses Reference.sound
                    "a@b.com" "Hi" "logo.png" (Some (Reference.digits 3100)) None
                    Reference.world)).
    vm_compute. lia.
Defined.

(** X9.  With the same encoder, a run without a body never saves a
    490 x 490 image: 131 bytes of the link of the default body are outside
    the alphanumeric class, at eight bits each more than version 10 holds
    at level H, and the image is 690 pixels a side or more. *)
Theorem reference_default_body_is_never_490 (P : Platform)
    (email subject logo_path : string) (output_file : option string)
    (w w' : World) :
  generate_qr_code Reference.tables P email subject logo_path None output_file w
    = (Return tt, w') ->
  exists im side,
    saved_image w' (output_path output_file) = Some im /\
    Image_size im = (side, side) /\
    690 <= side /\
    Image_size im <> (490, 490).
Proof.
  intros Hrun.
  destruct (generate_qr_code_success Reference.tables P _ _ _ _ _ _ _ Hrun)
    as (qr & im & Hmake & _ & Hsize & _ & Hsaved).
  destruct (make_request_sound _ _ _ Hmake) as (Hqr & Hv & Hfits).
  assert (Hpx : pixel_size qr = (version qr * 4 + 25) * 10).
  { rewrite Hqr. unfold pixel_size, modules_count. simpl. lia. }
  pose proof (reference_bits_outside (mode_sizes_for_version (version qr))
                (email_link email subject None)) as Hbits.
  assert (Hcount :
    (131 <= Reference.count_outside Reference.is_alpha_num (email_link email subject None))%nat).
  { rewrite email_link_unfold, !count_outside_append.
    change (Reference.count_outside Reference.is_alpha_num "mailto:") with 6%nat.
    change (Reference.count_outside Reference.is_alpha_num "?subject=") with 9%nat.
    change (Reference.count_outside Reference.is_alpha_num "&body=") with 6%nat.
    change (Reference.count_outside Reference.is_alpha_num default_body) with 110%nat. lia. }
  pose proof (reference_H_bounds (version qr) ltac:(lia)) as Hcap.
  change (bit_limit Reference.tables ERROR_CORRECT_H (version qr))
    with (Reference.iso_bit_limit ERROR_CORRECT_H (version qr)) in Hfits.
  assert (H11 : 11 <= version qr).
  { destruct (Z.ltb_spec (version qr) 11); lia. }
  exists im, (pixel_size qr).
  split; [exact Hsaved|]. split; [exact Hsize|]. split; [lia|].
  rewrite Hsize. intros H. injection H as H. lia.
Qed.

(** X9 at the run of [a@b.com] and [Hi] without a body. *)
Lemma reference_default_body_is_never_490_witness :
  fst (generate_qr_code Reference.tables Reference.sound
         "a@b.com" "Hi" "logo.png" None None Reference.world) = Return tt /\
  exists im side,
    saved_image
      (snd (generate_qr_code Reference.tables Reference.sound
              "a@b.com" "Hi" "logo.png" None None Reference.world))
      "email_qr.png" = Some im /\
    Image_size im = (side, side) /\
    690 <= side /\
    Image_size im <> (490, 490).
Proof.
  split; [vm_compute; reflexivity|].
  apply (reference_default_body_is_never_490 Reference.sound
           "a@b.com" "Hi" "logo.png" None
           Reference.world).
  vm_compute. reflexivity.
Defined.

(** ** main *)

Lemma new_events_none (w : World) : new_events w w = [].
Proof. unfold new_events. apply drop_all. Qed.

Lemma parse_args_given (cl : CommandLine) (email subject logo : string) :
  given_email cl = Some email ->
  given_subject cl = Some subject ->
  given_logo cl = Some logo ->
  parse_args cl =
  Some {| args_email := email;
          args_subject := subject;
          args_logo := logo;
          args_body := given_body cl;
          args_output := output_path (given_output cl) |}.
Proof.
  intros He Hs Hl. unfold parse_args, stored. rewrite He, Hs, Hl.
  destruct (given_body cl), (given_output cl); reflexivity.
Qed.

Lemma output_path_twice (output_file : option string) :
  output_path (Some (output_path output_file)) = output_path output_file.
Proof. reflexivity. Qed.

(** X10.  A command line that gives the three required flags runs
    [generate_qr_code] with their values; a body or an output path that is
    not given is left to the default of the function, with which the default
    of the parser agrees. *)
Theorem main_forwards_flags_and_defaults (T : QRTables) (P : Platform)
    (cl : CommandLine) (email subject logo : string) (w : World) :
  given_email cl = Some email ->
  given_subject cl = Some subject ->
  given_logo cl = Some logo ->
  main T P cl w =
  (Ran (fst (generate_qr_code T P email subject logo
               (given_body cl) (given_output cl) w)),
   snd (generate_qr_code T P email subject logo
          (given_body cl) (given_output cl) w)).
Proof.
  intros He Hs Hl. unfold main.
  rewrite (parse_args_given cl email subject logo He Hs Hl).
  cbn [args_email args_subject args_logo args_body args_output].
  assert (Hsame :
    generate_qr_code T P email subject logo (given_body cl)
      (Some (output_path (given_output cl))) w
    = generate_qr_code T P email subject logo (given_body cl) (given_output cl) w).
  { rewrite !generate_qr_code_run, output_path_twice. reflexivity. }
  rewrite Hsame.
  destruct (generate_qr_code T P email subject logo _ _ w). reflexivity.
Qed.

(** X10 at [--email a@b.com --subject Hi --logo missing.png]. *)
Lemma main_forwards_flags_and_defaults_witness :
  main Reference.tables Reference.sound
    {| given_email := Some "a@b.com"; given_subject := Some "Hi";
       given_logo := Some "missing.png"; given_body := None;
       given_output := None |}
    Reference.world
  = (Ran (fst (generate_qr_code Reference.tables Reference.sound
                 "a@b.com" "Hi" "missing.png" None None Reference.world)),
     snd (generate_qr_code Reference.tables Reference.sound
            "a@b.com" "Hi" "missing.png" None None Reference.world)).
Proof.
  apply (main_forwards_flags_and_defaults Reference.tables Reference.sound
           {| given_email := Some "a@b.com"; given_subject := Some "Hi";
              given_logo := Some "missing.png"; given_body := None;
              given_output := None |}
           "a@b.com" "Hi" "missing.png" Reference.world); reflexivity.
Defined.

(** X11.  On a command line made of the five flags of the script, each
    spelled in full and followed by a value the parser takes as such (see
    [CommandLine]: an unknown flag, a flag without its value, a value taken
    for a flag and [--help] make no such command line), the status of the
    process tells how the script ended: it is 2 exactly when a required flag
    is missing, and then nothing was done; it is 0 exactly when the
    confirmation line was printed; it is 1 otherwise. *)
Theorem exit_status_tells_the_outcome (T : QRTables) (P : Platform)
    (cl : CommandLine) (w : World) :
  (exit_status (fst (main T P cl w)) = 2 <->
   given_email cl = None \/ given_subject cl = None \/ given_logo cl = None) /\
  (exit_status (fst (main T P cl w)) = 2 -> snd (main T P cl w) = w) /\
  (exit_status (fst (main T P cl w)) = 0 <->
   In (Printed ("QR code saved as " +:+ output_path (given_output cl)))
     (new_events w (snd (main T P cl w)))) /\
  (exit_status (fst (main T P cl w)) = 0 \/
   exit_status (fst (main T P cl w)) = 1 \/
   exit_status (fst (main T P cl w)) = 2).
Proof.
  destruct (given_email cl) as [email|] eqn:He;
    [destruct (given_subject cl) as [subject|] eqn:Hs;
     [destruct (given_logo cl) as [logo|] eqn:Hl|]|].
  - unfold main.
    assert (Hargs := parse_args_given cl email subject logo).
    rewrite He, Hs, Hl in Hargs. rewrite (Hargs eq_refl eq_refl eq_refl).
    cbn [args_email args_subject args_logo args_body args_output].
    pose proof (trace_confirms_only_returns T P email subject logo
                  (given_body cl) (Some (output_path (given_output cl))) w) as Hiff.
    rewrite output_path_twice in Hiff.
    destruct (generate_qr_code T P email subject logo _ _ w) as [[[]|e] w'];
      cbn [fst snd exit_status] in *.
    + repeat split; try discriminate; try tauto.
      intros [H|[H|H]]; discriminate.
    + repeat split; try discriminate; try tauto.
      * intros [H|[H|H]]; discriminate.
      * intros H. apply Hiff in H. discriminate.
  - unfold main, parse_args, stored. rewrite He, Hs, Hl.
    cbn [required logo_argument fst snd exit_status].
    rewrite new_events_none. cbn [In]. repeat split; try tauto; discriminate.
  - unfold main, parse_args, stored. rewrite He, Hs.
    cbn [required subject_argument fst snd exit_status].
    rewrite new_events_none. cbn [In]. repeat split; try tauto; discriminate.
  - unfold main, parse_args, stored. rewrite He.
    cbn [required email_argument fst snd exit_status].
    rewrite new_events_none. cbn [In]. repeat split; try tauto; discriminate.
Qed.
